(** * Lane filter (histogram filter over lateral offset and heading)

    Shallow embedding of
    [catkin_ws/src/lane_filter/src/lane_filter_node_Qlearning.py]
    (class [LaneFilterNode]) and the properties its specification states.

    Modelling conventions.
    - Python floats and numpy [float64] cells are taken as real numbers
      ([R]): rounding is left out, and so are the values [inf] and [nan],
      except for the one place where the source can produce them on
      well-formed input (the tangent of a zero-length segment, see
      [generateVote]).
    - The source is Python 2, where [/] between two integers floors.
      Lines 43-45 are the only place that divides parameters whose
      defaults are integers, so the four control points of the distance
      weighting are numbers that are an integer or a float ([num]) with
      Python's arithmetic; the other parameters are floats.
    - Floating-point rounding is not modelled.  Statements that depend on
      which side of a bin boundary a rounded quotient falls ([bin],
      [mgrid_len]) or on a sum absorbing a tiny term ([fuse]) are exact
      over the reals only; they are used for totals, signs and
      inequalities, and for cells away from a boundary.
    - A numpy 2-D array is a function [nat -> nat -> R] read inside the
      shape the node stores once at construction ([self.d.shape]).
    - An array subscript is an integer resolved as numpy does: negative
      subscripts count from the end, anything else out of range raises
      [IndexError].  ([math.floor] gives a float in Python 2 and the numpy
      of that time truncates a float subscript; a subscript that is not a
      finite number raises.)
    - [rospy.get_param] reads a parameter server, a partial map from names
      to values; [rospy.get_time] readings are inputs of the operations.
    - [scipy.ndimage.gaussian_filter] is a parameter of the development;
      [scipy.stats.multivariate_normal.pdf] is its closed form for the
      diagonal covariance the node builds.
    - Lines 121-246 of the source (the Q-learning fragment) are not Python:
      [for], [if], [elif] and [while] headers have no colon and call
      syntax is used as an assignment target.  The fragment has no
      executable reading and [processSegments] is embedded without it. *)

From Stdlib Require Import Reals Lra Lia ZArith List Bool String Zfloor Machin.
From Stdlib Require Import FunctionalExtensionality Permutation.
Import ListNotations.

#[local] Open Scope R_scope.

(** ** Comparisons of reals as booleans *)

Definition Rltb (a b : R) : bool := if Rlt_dec a b then true else false.
Definition Rgtb (a b : R) : bool := Rltb b a.
Definition Reqb (a b : R) : bool := if Req_dec_T a b then true else false.

(** ** Parameters *)

(** The parameter server: [rospy.get_param(name, default)]. *)
Record ParamServer := {
  real_param : string -> option R;       (* parameters stored as floats *)
  int_param : string -> option Z;        (* parameters stored as integers *)
  bool_param : string -> option bool
}.

(** A number as [rospy.get_param] returns it: a Python int or a float. *)
Inductive num :=
  | PInt (z : Z)
  | PFloat (r : R).

Definition to_R (a : num) : R :=
  match a with
  | PInt z => IZR z
  | PFloat r => r
  end.

(** Python 2 arithmetic: two integers give an integer ([/] floors), anything
    else is computed in floats. *)
Definition num_binop (fz : Z -> Z -> Z) (fr : R -> R -> R) (a b : num) : num :=
  match a, b with
  | PInt u, PInt v => PInt (fz u v)
  | _, _ => PFloat (fr (to_R a) (to_R b))
  end.

Definition num_add : num -> num -> num := num_binop Z.add Rplus.
Definition num_sub : num -> num -> num := num_binop Z.sub Rminus.
Definition num_mul : num -> num -> num := num_binop Z.mul Rmult.
Definition num_div : num -> num -> num := num_binop Z.div Rdiv.

Definition num_opp (a : num) : num :=
  match a with
  | PInt u => PInt (- u)
  | PFloat r => PFloat (- r)
  end.

(** [a ** n] for a literal exponent [n]. *)
Definition num_pow (a : num) (n : nat) : num :=
  match a with
  | PInt u => PInt (u ^ Z.of_nat n)
  | PFloat r => PFloat (r ^ n)
  end.
Arguments num_pow a n%_nat.

Declare Scope num_scope.
Delimit Scope num_scope with num.
Notation "a + b" := (num_add a b) : num_scope.
Notation "a - b" := (num_sub a b) : num_scope.
Notation "a * b" := (num_mul a b) : num_scope.
Notation "a / b" := (num_div a b) : num_scope.
Notation "- a" := (num_opp a) : num_scope.
Notation "a ^ n" := (num_pow a n) : num_scope.

(** [rospy.get_param] for a parameter that may be stored as an integer. *)
Definition get_num (srv : ParamServer) (name : string) (default : num) : num :=
  match int_param srv name with
  | Some z => PInt z
  | None =>
      match real_param srv name with
      | Some r => PFloat r
      | None => default
      end
  end.

Definition get_param (srv : ParamServer) (name : string) (default : R) : R :=
  match real_param srv name with Some v => v | None => default end.

Definition get_flag (srv : ParamServer) (name : string) (default : bool) : bool :=
  match bool_param srv name with Some v => v | None => default end.

(** The attributes [updateParams] assigns. *)
Record Params := {
  mean_0 : R * R;
  cov_0 : R * R;               (* diagonal of [[sigma_d_0, 0], [0, sigma_phi_0]] *)
  delta_d : R;
  delta_phi : R;
  d_max : R;
  d_min : R;
  phi_min : R;
  phi_max : R;
  cov_v : R;
  cov_omega : R;
  linewidth_white : R;
  linewidth_yellow : R;
  lanewidth : R;
  min_max : R;
  use_distance_weighting : bool;
  zero_val : num;
  l_peak : num;
  peak_val : num;
  l_max : num;
  use_max_segment_dist : bool;
  max_segment_dist : R;
  use_min_segs : bool;
  min_segs : R;
  use_propagation : bool;
  cov_mask : R * R
}.

(** ** Distance weighting (lines 43-45 and 269)

    A zero denominator raises in Python and the node is not built; the
    statements about the coefficients keep [l_peak] and [l_max] apart and
    away from 0. *)

Definition dwa_of (p : Params) : num :=
  (- (zero_val p * l_peak p ^ 2 + zero_val p * l_max p ^ 2
      - l_max p ^ 2 * peak_val p - PInt 2 * zero_val p * l_peak p * l_max p
      + PInt 2 * l_peak p * l_max p * peak_val p)
   / (l_peak p ^ 2 * l_max p * (l_peak p - l_max p) ^ 2))%num.

Definition dwb_of (p : Params) : num :=
  ((PInt 2 * zero_val p * l_peak p ^ 3 + zero_val p * l_max p ^ 3
    - l_max p ^ 3 * peak_val p - PInt 3 * zero_val p * l_peak p ^ 2 * l_max p
    + PInt 3 * l_peak p ^ 2 * l_max p * peak_val p)
   / (l_peak p ^ 2 * l_max p * (l_peak p - l_max p) ^ 2))%num.

Definition dwc_of (p : Params) : num :=
  (- (zero_val p * l_peak p ^ 3 + PInt 2 * zero_val p * l_max p ^ 3
      - PInt 2 * l_max p ^ 3 * peak_val p - PInt 3 * zero_val p * l_peak p * l_max p ^ 2
      + PInt 3 * l_peak p * l_max p ^ 2 * peak_val p)
   / (l_peak p * l_max p * (l_peak p - l_max p) ^ 2))%num.

(** [dist_weight] of line 269; [l_i] is a float, so the sum is computed in
    floats whatever the coefficients are. *)
Definition dist_weight (a b c w0 l_i : R) : R :=
  a * l_i ^ 3 + b * l_i ^ 2 + c * l_i + w0.

(** ** Messages (duckietown_msgs) *)

Inductive Color := WHITE | YELLOW | RED.

Definition Color_eqb (a b : Color) : bool :=
  match a, b with
  | WHITE, WHITE | YELLOW, YELLOW | RED, RED => true
  | _, _ => false
  end.

Record Point := { x : R; y : R }.

Record Segment := {
  color : Color;
  points : Point * Point       (* [segment.points[0]], [segment.points[1]] *)
}.

Record SegmentList := {
  stamp : R;                   (* [header.stamp] *)
  segments : list Segment
}.

Record LanePose := {
  pose_stamp : R;
  pose_d : R;
  pose_phi : R;
  in_lane : bool
}.

(** ** Arrays *)

Definition Grid := nat -> nat -> R.
Definition Shape := (nat * nat)%type.

Definition zeros : Grid := fun _ _ => 0.

Fixpoint sum_upto (n : nat) (f : nat -> R) : R :=
  match n with
  | O => 0
  | S k => sum_upto k f + f k
  end.

(** [np.sum] over a 2-D array. *)
Definition np_sum (sh : Shape) (g : Grid) : R :=
  sum_upto (fst sh) (fun i => sum_upto (snd sh) (fun j => g i j)).

(** [np.linalg.norm] of a 2-D array (Frobenius norm). *)
Definition np_norm (sh : Shape) (g : Grid) : R :=
  sqrt (np_sum sh (fun i j => g i j * g i j)).

Definition scale (k : R) (g : Grid) : Grid := fun i j => k * g i j.

(** [g / s], elementwise. *)
Definition div_by (g : Grid) (s : R) : Grid := fun i j => g i j / s.

(** Exceptions a frame can end in. *)
Inductive exn :=
  | IndexError                 (* subscript outside the array *)
  | ValueError.                (* subscript that is not a finite number *)

Inductive result (A : Type) :=
  | Ok (a : A)
  | Raise (e : exn).
Arguments Ok {A} a.
Arguments Raise {A} e.

Definition bind {A B : Type} (m : result A) (k : A -> result B) : result B :=
  match m with
  | Ok a => k a
  | Raise e => Raise e
  end.

Notation "'do' a <- m ; k" := (bind m (fun a => k))
  (at level 10, a name, m at level 100, k at level 200).

(** One axis of a numpy subscript: [0 <= i < n] is itself, [-n <= i < 0]
    counts from the end, anything else raises. *)
Definition np_index (n : nat) (i : Z) : result nat :=
  if (0 <=? i)%Z && (i <? Z.of_nat n)%Z then Ok (Z.to_nat i)
  else if (- Z.of_nat n <=? i)%Z && (i <? 0)%Z then Ok (Z.to_nat (Z.of_nat n + i))
  else Raise IndexError.

Definition add_at (g : Grid) (i j : nat) (w : R) : Grid :=
  fun a b => if Nat.eqb a i && Nat.eqb b j then g a b + w else g a b.

(** [floor((v - v_min)/delta)] of lines 265-266 and 351-352.  With
    [delta = 0] the quotient is infinite or not a number and so is its
    floor ([None]); the subscript built from it raises. *)
Definition bin (v v_min delta : R) : option Z :=
  if Reqb delta 0 then None
  else Some (Zfloor ((v - v_min) / delta)).

Definition subscript (n : nat) (i : option Z) : result nat :=
  match i with
  | Some k => np_index n k
  | None => Raise ValueError
  end.

(** [g[i,j] = g[i,j] + w] on an array of shape [sh]. *)
Definition accumulate (sh : Shape) (g : Grid) (i j : option Z) (w : R) : result Grid :=
  do a <- subscript (fst sh) i;
  do b <- subscript (snd sh) j;
  Ok (add_at g a b w).

(** [for k in range(n)], threading a value through the body. *)
Fixpoint for_range {A : Type} (n : nat) (body : nat -> A -> result A) (a : A) : result A :=
  match n with
  | O => Ok a
  | S k => do a' <- for_range k body a; body k a'
  end.

(** [max()] and [argmax()] over the first [n] entries of a sequence; the
    first maximum wins. *)
Fixpoint argmax_upto (n : nat) (f : nat -> R) : nat :=
  match n with
  | O => O
  | S k =>
      match k with
      | O => O
      | S _ => let m := argmax_upto k f in if Rltb (f m) (f k) then k else m
      end
  end.

Definition flat (sh : Shape) (g : Grid) : nat -> R :=
  fun k => g (k / snd sh)%nat (k mod snd sh)%nat.

(** [np.unravel_index(g.argmax(), g.shape)], row-major. *)
Definition argmax (sh : Shape) (g : Grid) : nat * nat :=
  let k := argmax_upto (fst sh * snd sh) (flat sh g) in
  ((k / snd sh)%nat, (k mod snd sh)%nat).

(** [g.max()]. *)
Definition np_max (sh : Shape) (g : Grid) : R :=
  let '(i, j) := argmax sh g in g i j.

(** ** The node *)

Record State := {
  params : Params;
  active : bool;
  shape : Shape;               (* [self.d.shape] *)
  d : Grid;
  phi : Grid;
  beliefRV : Grid;
  lanePose : LanePose;
  dwa : R;
  dwb : R;
  dwc : R;
  t_last_update : R;
  v_current : R;
  w_current : R
}.

Definition set_params (self : State) (p : Params) : State :=
  {| params := p; active := active self; shape := shape self;
     d := d self; phi := phi self; beliefRV := beliefRV self;
     lanePose := lanePose self; dwa := dwa self; dwb := dwb self;
     dwc := dwc self; t_last_update := t_last_update self;
     v_current := v_current self; w_current := w_current self |}.

Definition set_beliefRV (self : State) (b : Grid) : State :=
  {| params := params self; active := active self; shape := shape self;
     d := d self; phi := phi self; beliefRV := b;
     lanePose := lanePose self; dwa := dwa self; dwb := dwb self;
     dwc := dwc self; t_last_update := t_last_update self;
     v_current := v_current self; w_current := w_current self |}.

Definition set_t_last_update (self : State) (t : R) : State :=
  {| params := params self; active := active self; shape := shape self;
     d := d self; phi := phi self; beliefRV := beliefRV self;
     lanePose := lanePose self; dwa := dwa self; dwb := dwb self;
     dwc := dwc self; t_last_update := t;
     v_current := v_current self; w_current := w_current self |}.

Definition set_lanePose (self : State) (lp : LanePose) : State :=
  {| params := params self; active := active self; shape := shape self;
     d := d self; phi := phi self; beliefRV := beliefRV self;
     lanePose := lp; dwa := dwa self; dwb := dwb self;
     dwc := dwc self; t_last_update := t_last_update self;
     v_current := v_current self; w_current := w_current self |}.

Definition set_active (self : State) (a : bool) : State :=
  {| params := params self; active := a; shape := shape self;
     d := d self; phi := phi self; beliefRV := beliefRV self;
     lanePose := lanePose self; dwa := dwa self; dwb := dwb self;
     dwc := dwc self; t_last_update := t_last_update self;
     v_current := v_current self; w_current := w_current self |}.

Definition set_velocity (self : State) (v w : R) : State :=
  {| params := params self; active := active self; shape := shape self;
     d := d self; phi := phi self; beliefRV := beliefRV self;
     lanePose := lanePose self; dwa := dwa self; dwb := dwb self;
     dwc := dwc self; t_last_update := t_last_update self;
     v_current := v; w_current := w |}.

(** [updateParams] (lines 72-105): every attribute is read from the
    parameter server, with the default of the source. *)
Definition read_params (srv : ParamServer) : Params :=
  {| mean_0 := (get_param srv "~mean_d_0" 0, get_param srv "~mean_phi_0" 0);
     cov_0 := (get_param srv "~sigma_d_0" (1/10), get_param srv "~sigma_phi_0" (1/100));
     delta_d := get_param srv "~delta_d" (2/100);
     delta_phi := get_param srv "~delta_phi" (2/100);
     d_max := get_param srv "~d_max" (5/10);
     d_min := get_param srv "~d_min" (-(7/10));
     phi_min := get_param srv "~phi_min" (- PI / 2);
     phi_max := get_param srv "~phi_max" (PI / 2);
     cov_v := get_param srv "~cov_v" (5/10);
     cov_omega := get_param srv "~cov_omega" (1/100);
     linewidth_white := get_param srv "~linewidth_white" (4/100);
     linewidth_yellow := get_param srv "~linewidth_yellow" (2/100);
     lanewidth := get_param srv "~lanewidth" (4/10);
     min_max := get_param srv "~min_max" (3/10);
     use_distance_weighting := get_flag srv "~use_distance_weighting" false;
     zero_val := get_num srv "~zero_val" (PInt 1);
     l_peak := get_num srv "~l_peak" (PInt 1);
     peak_val := get_num srv "~peak_val" (PInt 10);
     l_max := get_num srv "~l_max" (PInt 2);
     use_max_segment_dist := get_flag srv "~use_max_segment_dist" false;
     max_segment_dist := get_param srv "~max_segment_dist" 1;
     use_min_segs := get_flag srv "~use_min_segs" false;
     min_segs := get_param srv "~min_segs" 10;
     use_propagation := get_flag srv "~use_propagation" false;
     cov_mask := (get_param srv "~sigma_d_mask" (5/100), get_param srv "~sigma_phi_mask" (5/100)) |}.

Definition updateParams (self : State) (srv : ParamServer) : State :=
  set_params self (read_params srv).

(** [cbSwitch] and [updateVelocity]. *)
Definition cbSwitch (self : State) (data : bool) : State := set_active self data.
Definition updateVelocity (self : State) (v omega : R) : State :=
  set_velocity self v omega.

(** ** Construction and belief initialisation *)

(** Density of [multivariate_normal(mean, [[s1, 0], [0, s2]])] at [(u, v)],
    for positive [s1] and [s2] (scipy refuses other covariances). *)
Definition pdf (mean cov : R * R) (u v : R) : R :=
  exp (- ((u - fst mean) ^ 2 / fst cov + (v - snd mean) ^ 2 / snd cov) / 2)
  / (2 * PI * sqrt (fst cov * snd cov)).

(** [initializeBelief] (lines 330-336). *)
Definition initializeBelief (self : State) : State :=
  set_beliefRV self
    (fun i j => pdf (mean_0 (params self)) (cov_0 (params self)) (d self i j) (phi self i j)).

(** Length of one axis of [np.mgrid[lo:hi:step]], for a non-zero step
    (with a zero step [np.mgrid] raises and the node is not built). *)
Definition mgrid_len (lo hi step : R) : nat := Z.to_nat (Zceil ((hi - lo) / step)).

(** [__init__] (lines 31-54); [t0] is the reading of [rospy.get_time()]. *)
Definition init (srv : ParamServer) (t0 : R) : State :=
  let p := read_params srv in
  initializeBelief
    {| params := p;
       active := true;
       shape := (mgrid_len (d_min p) (d_max p) (delta_d p),
                 mgrid_len (phi_min p) (phi_max p) (delta_phi p));
       d := fun i _ => d_min p + INR i * delta_d p;
       phi := fun _ j => phi_min p + INR j * delta_phi p;
       beliefRV := zeros;
       lanePose := {| pose_stamp := 0; pose_d := fst (mean_0 p);
                      pose_phi := snd (mean_0 p); in_lane := false |};
       dwa := to_R (dwa_of p);
       dwb := to_R (dwb_of p);
       dwc := to_R (dwc_of p);
       t_last_update := t0;
       v_current := 0;
       w_current := 0 |}.

(** ** Votes (generateVote, lines 372-408) *)

(** A vote; [VoteNaN] is the triple of [nan] the source computes when the
    two endpoints coincide ([0/0] in the tangent, numpy does not raise). *)
Inductive vote :=
  | Vote (d_i phi_i l_i : R)
  | VoteNaN.

Definition inner (a b : R * R) : R := fst a * fst b + snd a * snd b.

(** [np.linalg.norm] of a 2-vector. *)
Definition norm2 (v : R * R) : R := sqrt (fst v * fst v + snd v * snd v).

Definition generateVote (p : Params) (segment : Segment) : vote :=
  let p1 := (x (fst (points segment)), y (fst (points segment))) in
  let p2 := (x (snd (points segment)), y (snd (points segment))) in
  let diff := (fst p2 - fst p1, snd p2 - snd p1) in
  if Reqb (norm2 diff) 0 then VoteNaN
  else
    let t_hat := (fst diff / norm2 diff, snd diff / norm2 diff) in
    let n_hat := (- snd t_hat, fst t_hat) in
    let d1 := inner n_hat p1 in
    let d2 := inner n_hat p2 in
    let l1 := inner t_hat p1 in
    let l2 := inner t_hat p2 in
    let l1 := if Rltb l1 0 then - l1 else l1 in
    let l2 := if Rltb l2 0 then - l2 else l2 in
    let l_i := (l1 + l2) / 2 in
    let d_i := (d1 + d2) / 2 in
    let phi_i := asin (snd t_hat) in
    match color segment with
    | WHITE => Vote d_i phi_i l_i
    | YELLOW =>
        let '(d_i, phi_i) :=
          if Rgtb (fst p2) (fst p1)
          then (d_i - linewidth_yellow p, - phi_i)
          else (- d_i, phi_i) in
        Vote (lanewidth p / 2 - d_i) phi_i l_i
    | RED => Vote d_i phi_i l_i
    end.

(** ** Fusion (updateBelief, lines 368-370) *)

Definition fuse (belief measurement_likelihood : Grid) : Grid :=
  fun i j => (belief i j + 1) * (measurement_likelihood i j + 1) - 1.

Definition updateBelief (self : State) (measurement_likelihood : Grid) : State :=
  let b := fuse (beliefRV self) measurement_likelihood in
  set_beliefRV self (div_by b (np_sum (shape self) b)).

(** ** An instance of the smoothing filter

    The truncated, separable Gaussian correlation with zero padding
    ([mode='constant']); an axis whose sigma is not above [1e-15] is left
    as it is. *)

Definition kernel_radius (sigma : R) : nat := Z.to_nat (Zfloor (4 * sigma + 1 / 2)).

Definition kernel_weight (sigma : R) (k : Z) : R :=
  exp (- (IZR k) ^ 2 / (2 * sigma ^ 2)).

Definition padded (n : nat) (v : nat -> R) (k : Z) : R :=
  if (0 <=? k)%Z && (k <? Z.of_nat n)%Z then v (Z.to_nat k) else 0.

Definition correlate1d (sigma : R) (n : nat) (v : nat -> R) : nat -> R :=
  fun i =>
    let r := kernel_radius sigma in
    let off m := (Z.of_nat m - Z.of_nat r)%Z in
    sum_upto (2 * r + 1) (fun m => kernel_weight sigma (off m) * padded n v (Z.of_nat i + off m))
    / sum_upto (2 * r + 1) (fun m => kernel_weight sigma (off m)).

Definition separable_gaussian (g : Grid) (sigma : R * R) (sh : Shape) : Grid :=
  let g1 : Grid :=
    if Rltb (1 / 10 ^ 15) (fst sigma)
    then fun i j => correlate1d (fst sigma) (fst sh) (fun a => g a j) i
    else g in
  if Rltb (1 / 10 ^ 15) (snd sigma)
  then fun i j => correlate1d (snd sigma) (snd sh) (fun b => g1 i b) j
  else g1.

(** ** Configurations used in statements *)

(** A parameter server with nothing set: every read gives the default. *)
Definition no_params : ParamServer :=
  {| real_param := fun _ => None; int_param := fun _ => None;
     bool_param := fun _ => None |}.

(** The server after [name] is set to the float [v]. *)
Definition with_real (srv : ParamServer) (name : string) (v : R) : ParamServer :=
  {| real_param := fun n => if String.eqb n name then Some v else real_param srv n;
     int_param := fun n => if String.eqb n name then None else int_param srv n;
     bool_param := bool_param srv |}.

Definition with_flag (srv : ParamServer) (name : string) (v : bool) : ParamServer :=
  {| real_param := real_param srv;
     int_param := int_param srv;
     bool_param := fun n => if String.eqb n name then Some v else bool_param srv n |}.

(** The four control points of the distance weighting stored as the floats
    1.0, 1.0, 10.0 and 2.0. *)
Definition float_control_points : ParamServer :=
  with_real (with_real (with_real (with_real no_params "~zero_val" 1)
                          "~l_peak" 1) "~peak_val" 10) "~l_max" 2.

(** The invariant the specification gives for the two grid axes. *)
Definition valid_axes (p : Params) : Prop :=
  d_min p < d_max p /\ phi_min p < phi_max p /\ 0 < delta_d p /\ 0 < delta_phi p.

(** The coordinate arrays are the ones [np.mgrid] builds from the current
    parameters (true after [__init__], and for as long as the parameter
    server keeps the axis values). *)
Definition grid_matches (self : State) : Prop :=
  let p := params self in
  (forall i j, d self i j = d_min p + INR i * delta_d p) /\
  (forall i j, phi self i j = phi_min p + INR j * delta_phi p) /\
  (forall i, (i < fst (shape self))%nat -> d_min p + INR i * delta_d p < d_max p) /\
  (forall j, (j < snd (shape self))%nat -> phi_min p + INR j * delta_phi p < phi_max p).

(** Cells inside the shape. *)
Definition nonneg (sh : Shape) (g : Grid) : Prop :=
  forall i j, (i < fst sh)%nat -> (j < snd sh)%nat -> 0 <= g i j.

Definition in_unit (sh : Shape) (g : Grid) : Prop :=
  forall i j, (i < fst sh)%nat -> (j < snd sh)%nat -> 0 <= g i j <= 1.

Definition same_cells (sh : Shape) (g h : Grid) : Prop :=
  forall i j, (i < fst sh)%nat -> (j < snd sh)%nat -> g i j = h i j.

(** A parameter server that sets the resolution of the offset axis to 0. *)
Definition zero_resolution : ParamServer := with_real no_params "~delta_d" 0.

(** The fusion rule in the words of the specification:
    [normalize((belief + 1) (.) (likelihood + 1) - 1)]. *)
Definition normalize (sh : Shape) (g : Grid) : Grid :=
  fun i j => g i j / np_sum sh g.

Definition fusion_spec (sh : Shape) (belief likelihood_grid : Grid) : Grid :=
  normalize sh (fun i j => (belief i j + 1) * (likelihood_grid i j + 1) - 1).

(** A segment the loop of [processSegments] passes over (lines 249-252). *)
Definition passed_over (segment : Segment) : Prop :=
  color segment <> YELLOW \/
  x (fst (points segment)) < 0 \/ x (snd (points segment)) < 0.

(** A frame with no segment, and a frame with one zero-length yellow
    segment at (1, 1). *)
Definition empty_frame : SegmentList := {| stamp := 0; segments := [] |}.

Definition zero_length_segment : Segment :=
  {| color := YELLOW; points := ({| x := 1; y := 1 |}, {| x := 1; y := 1 |}) |}.

Definition zero_length_frame : SegmentList :=
  {| stamp := 0; segments := [zero_length_segment] |}.

(** The vote of a yellow segment in the words of the specification
    (section 4.2): unit tangent and unit normal, projections of both
    endpoints, their averages, the angle, then the yellow-edge correction
    and the change to a centreline-relative offset.  There is no vote
    when the segment has no unit tangent. *)
Definition unit_tangent (p1 p2 : R * R) : option (R * R) :=
  let len := sqrt ((fst p2 - fst p1) ^ 2 + (snd p2 - snd p1) ^ 2) in
  if Req_dec_T len 0 then None
  else Some ((fst p2 - fst p1) / len, (snd p2 - snd p1) / len).

Definition yellow_vote_spec (lane_width line_width : R) (p1 p2 : R * R) : option vote :=
  match unit_tangent p1 p2 with
  | None => None
  | Some t_hat =>
      let n_hat := (- snd t_hat, fst t_hat) in
      let d1 := inner n_hat p1 in
      let d2 := inner n_hat p2 in
      let l1 := inner t_hat p1 in
      let l2 := inner t_hat p2 in
      let d_i := (d1 + d2) / 2 in
      let l_i := (Rabs l1 + Rabs l2) / 2 in
      let phi_i := asin (snd t_hat) in
      if Rlt_dec (fst p1) (fst p2)
      then Some (Vote (lane_width / 2 - (d_i - line_width)) (- phi_i) l_i)
      else Some (Vote (lane_width / 2 - (- d_i)) phi_i l_i)
  end.

(** The yellow segment from (1, 0) to (0, 1). *)
Definition diagonal_segment : Segment :=
  {| color := YELLOW; points := ({| x := 1; y := 0 |}, {| x := 0; y := 1 |}) |}.

(** The cells of [b] that are inside the shape and positive; 0 elsewhere. *)
Definition clip (sh : Shape) (b : Grid) : Grid :=
  fun i j =>
    if (i <? fst sh)%nat && (j <? snd sh)%nat && Rgtb (b i j) 0 then b i j else 0.

(** Propagation on, both smoothing sigmas 0, everything else default. *)
Definition unsmoothed : ParamServer :=
  with_real (with_real (with_flag no_params "~use_propagation" true)
               "~sigma_d_mask" 0) "~sigma_phi_mask" 0.

(** All the mass in cell (0, 0). *)
Definition one_hot : Grid := add_at zeros 0 0 1.

Definition diagonal_frame : SegmentList :=
  {| stamp := 0; segments := [diagonal_segment] |}.

(** A white segment, which the loop passes over. *)
Definition white_segment : Segment :=
  {| color := WHITE; points := ({| x := 1; y := 0 |}, {| x := 2; y := 0 |}) |}.

(** ** Further code and auxiliary notions *)

(** [getSegmentDistance] (lines 410-414): distance of the midpoint of a
    segment from the origin. *)
Definition getSegmentDistance (segment : Segment) : R :=
  let x_c := (x (fst (points segment)) + x (snd (points segment))) / 2 in
  let y_c := (y (fst (points segment)) + y (snd (points segment))) / 2 in
  sqrt (x_c ^ 2 + y_c ^ 2).


(** A segment with its endpoints exchanged. *)
Definition reversed (segment : Segment) : Segment :=
  {| color := color segment;
     points := (snd (points segment), fst (points segment)) |}.


(** What one pass of the segment loop (lines 249-274) does to the
    likelihood, apart from the likelihood itself: nothing, or a weight for
    one cell.  [vote_segment_ballot] ties it to the loop body. *)
Inductive ballot :=
  | Abstain
  | Cast (a b : nat) (w : R).

Definition cast_at (sh : Shape) (i j : option Z) (w : R) : result ballot :=
  do a <- subscript (fst sh) i;
  do b <- subscript (snd sh) j;
  Ok (Cast a b w).

Definition ballot_of (self : State) (segment : Segment) : result ballot :=
  let cfg := params self in
  if negb (Color_eqb (color segment) YELLOW) then Ok Abstain
  else if Rltb (x (fst (points segment))) 0 || Rltb (x (snd (points segment))) 0
  then Ok Abstain
  else
    match generateVote cfg segment with
    | VoteNaN => Raise ValueError
    | Vote d_i phi_i l_i =>
        if Rgtb d_i (d_max cfg) || Rltb d_i (d_min cfg)
           || Rltb phi_i (phi_min cfg) || Rgtb phi_i (phi_max cfg)
        then Ok Abstain
        else if use_max_segment_dist cfg && Rgtb l_i (max_segment_dist cfg)
        then Ok Abstain
        else
          let i := bin d_i (d_min cfg) (delta_d cfg) in
          let j := bin phi_i (phi_min cfg) (delta_phi cfg) in
          if use_distance_weighting cfg then
            let w := dist_weight (dwa self) (dwb self) (dwc self) (to_R (zero_val cfg)) l_i in
            if Rltb w 0 then Ok Abstain
            else cast_at (shape self) i j w
          else cast_at (shape self) i j (1 / l_i)
    end.

Definition apply_ballot (b : ballot) (g : Grid) : Grid :=
  match b with
  | Abstain => g
  | Cast a c w => add_at g a c w
  end.

(** The ballots of a frame, in order; the first exception wins. *)
Fixpoint ballots (self : State) (segs : list Segment) : result (list ballot) :=
  match segs with
  | [] => Ok []
  | s :: rest =>
      do b <- ballot_of self s;
      do bs <- ballots self rest;
      Ok (b :: bs)
  end.

Definition tally (bs : list ballot) (g : Grid) : Grid :=
  fold_left (fun acc b => apply_ballot b acc) bs g.

Definition is_cast (b : ballot) : bool :=
  match b with Abstain => false | Cast _ _ _ => true end.

(** A segment that reaches line 265 with a vote that is a number: yellow,
    in front of the robot, inside the bounds (both ends included) and not
    beyond the distance filter. *)
Definition votes (p : Params) (s : Segment) : Prop :=
  color s = YELLOW /\
  0 <= x (fst (points s)) /\ 0 <= x (snd (points s)) /\
  exists d_i phi_i l_i,
    generateVote p s = Vote d_i phi_i l_i /\
    d_min p <= d_i <= d_max p /\ phi_min p <= phi_i <= phi_max p /\
    (use_max_segment_dist p = true -> l_i <= max_segment_dist p).

(** The positive part of a cell, as line 348 reads it. *)
Definition positive_part (b : Grid) : Grid :=
  fun i j => if Rgtb (b i j) 0 then b i j else 0.


(** A node with the default grid and lane width and neither the distance
    filter nor the distance weighting on. *)
Definition default_grid (self : State) : Prop :=
  let p := params self in
  d_min p = - (7 / 10) /\ d_max p = 5 / 10 /\ delta_d p = 2 / 100 /\
  phi_min p = - PI / 2 /\ phi_max p = PI / 2 /\ delta_phi p = 2 / 100 /\
  lanewidth p = 4 / 10 /\
  use_max_segment_dist p = false /\ use_distance_weighting p = false /\
  shape self = (60, 158)%nat.

(** A frame of eleven copies of the segment from (1, 0) to (0, 1). *)
Definition crowded_frame : SegmentList :=
  {| stamp := 0; segments := repeat diagonal_segment 11 |}.

(** [for a in l], threading a value through the body. *)
Fixpoint for_each {A B : Type} (l : list B) (body : B -> A -> result A) (a : A) : result A :=
  match l with
  | [] => Ok a
  | b :: rest => do a' <- body b a; for_each rest body a'
  end.

(** What a frame publishes: [pub_lane_pose] and [pub_in_lane]. *)
Record Published := {
  lane_pose : LanePose;
  in_lane_msg : bool
}.

Section Node.

(** [gaussian_filter(input, sigma, output=..., mode='constant')] on an
    array of the given shape. *)
Variable gaussian_filter : Grid -> R * R -> Shape -> Grid.

(** ** Propagation (propagateBelief, lines 338-366) *)

(** Body of the double loop, lines 348-353. *)
Definition propagate_cell (self : State) (delta_t : R) (i j : nat)
    (p_beliefRV : Grid) : result Grid :=
  let cfg := params self in
  if Rgtb (beliefRV self i j) 0 then
    let d_t := d self i j + v_current self * delta_t * sin (phi self i j) in
    let phi_t := phi self i j + w_current self * delta_t in
    if Rgtb d_t (d_max cfg) || Rltb d_t (d_min cfg)
       || Rltb phi_t (phi_min cfg) || Rgtb phi_t (phi_max cfg)
    then Ok p_beliefRV
    else accumulate (shape self) p_beliefRV
           (bin d_t (d_min cfg) (delta_d cfg))
           (bin phi_t (phi_min cfg) (delta_phi cfg))
           (beliefRV self i j)
  else Ok p_beliefRV.

(** The remapped grid [p_beliefRV] of lines 344-353. *)
Definition remap (self : State) (delta_t : R) : result Grid :=
  for_range (fst (shape self))
    (fun i p => for_range (snd (shape self)) (fun j q => propagate_cell self delta_t i j q) p)
    zeros.

(** [now] is the reading of [rospy.get_time()] at line 339. *)
Definition propagateBelief (self : State) (now : R) : result State :=
  let delta_t := now - t_last_update self in
  do p_beliefRV <- remap self delta_t;
  let s_beliefRV :=
    gaussian_filter (scale 100 p_beliefRV) (cov_mask (params self)) (shape self) in
  if Reqb (np_sum (shape self) s_beliefRV) 0 then Ok self
  else Ok (set_beliefRV self (div_by s_beliefRV (np_sum (shape self) s_beliefRV))).

(** ** Frame processing (processSegments, lines 110-120 and 248-318) *)

(** Body of the segment loop, lines 249-274. *)
Definition vote_segment (self : State) (segment : Segment)
    (measurement_likelihood : Grid) : result Grid :=
  let cfg := params self in
  if negb (Color_eqb (color segment) YELLOW) then Ok measurement_likelihood
  else if Rltb (x (fst (points segment))) 0 || Rltb (x (snd (points segment))) 0
  then Ok measurement_likelihood
  else
    match generateVote cfg segment with
    | VoteNaN => Raise ValueError
    | Vote d_i phi_i l_i =>
        if Rgtb d_i (d_max cfg) || Rltb d_i (d_min cfg)
           || Rltb phi_i (phi_min cfg) || Rgtb phi_i (phi_max cfg)
        then Ok measurement_likelihood
        else if use_max_segment_dist cfg && Rgtb l_i (max_segment_dist cfg)
        then Ok measurement_likelihood
        else
          let i := bin d_i (d_min cfg) (delta_d cfg) in
          let j := bin phi_i (phi_min cfg) (delta_phi cfg) in
          if use_distance_weighting cfg then
            let w := dist_weight (dwa self) (dwb self) (dwc self) (to_R (zero_val cfg)) l_i in
            if Rltb w 0 then Ok measurement_likelihood
            else accumulate (shape self) measurement_likelihood i j w
          else accumulate (shape self) measurement_likelihood i j (1 / l_i)
    end.

(** The accumulated, not yet normalised likelihood of lines 120-274. *)
Definition likelihood (self : State) (segs : list Segment) : result Grid :=
  for_each segs (vote_segment self) zeros.

(** Lines 115-117. *)
Definition propagation_step (self : State) (t_prop t_upd : R) : result State :=
  if use_propagation (params self) then
    do s <- propagateBelief self t_prop;
    Ok (set_t_last_update s t_upd)
  else Ok self.

(** Lines 289-302: the pose read from the belief. *)
Definition extract (self : State) (segment_list_msg : SegmentList)
    (measurement_likelihood : Grid) : LanePose :=
  let cfg := params self in
  let maxids := argmax (shape self) (beliefRV self) in
  let max_val := np_max (shape self) (beliefRV self) in
  {| pose_stamp := stamp segment_list_msg;
     pose_d := d_min cfg + INR (fst maxids) * delta_d cfg;
     pose_phi := phi_min cfg + INR (snd maxids) * delta_phi cfg;
     in_lane :=
       Rgtb max_val (min_max cfg)
       && Rgtb (INR (List.length (segments segment_list_msg))) (min_segs cfg)
       && negb (Reqb (np_norm (shape self) measurement_likelihood) 0) |}.

(** [t_prop] and [t_upd] are the readings of [rospy.get_time()] at lines
    339 and 117.  The result is the node after the frame and what was
    published, if anything. *)
Definition processSegments (self : State) (segment_list_msg : SegmentList)
    (t_prop t_upd : R) : result (State * option Published) :=
  if negb (active self) then Ok (self, None)
  else
    do self1 <- propagation_step self t_prop t_upd;
    do raw <- likelihood self1 (segments segment_list_msg);
    if Reqb (np_norm (shape self1) raw) 0 then Ok (self1, None)
    else
      let measurement_likelihood := div_by raw (np_sum (shape self1) raw) in
      let self2 :=
        if use_propagation (params self1)
        then updateBelief self1 measurement_likelihood
        else set_beliefRV self1 measurement_likelihood in
      let pose := extract self2 segment_list_msg measurement_likelihood in
      Ok (set_lanePose self2 pose,
          Some {| lane_pose := pose; in_lane_msg := in_lane pose |}).


(** * Properties *)

(** ** Comparisons *)

Lemma Rltb_true (a b : R) : Rltb a b = true <-> a < b.
Proof. unfold Rltb. destruct (Rlt_dec a b); split; intros; [assumption|reflexivity|discriminate|contradiction]. Qed.

Lemma Rltb_false (a b : R) : Rltb a b = false <-> b <= a.
Proof. unfold Rltb. destruct (Rlt_dec a b); split; intros; try discriminate; try reflexivity; lra. Qed.

Lemma Rgtb_true (a b : R) : Rgtb a b = true <-> b < a.
Proof. apply Rltb_true. Qed.

Lemma Rgtb_false (a b : R) : Rgtb a b = false <-> a <= b.
Proof. apply Rltb_false. Qed.

Lemma Reqb_true (a b : R) : Reqb a b = true <-> a = b.
Proof. unfold Reqb. destruct (Req_dec_T a b); split; intros; try discriminate; try reflexivity; tauto. Qed.

Lemma Reqb_false (a b : R) : Reqb a b = false <-> a <> b.
Proof. unfold Reqb. destruct (Req_dec_T a b); split; intros; try discriminate; try reflexivity; tauto. Qed.

(** ** The weighting polynomial *)

(** C4, as stated, fails: with the default control points
    (zero_val = 1, l_peak = 1, peak_val = 10, l_max = 2, integers) the
    node holds the coefficients (-1, -8, 17) and the cubic of line 269 is
    -5 at [l_max], not [zero_val], and 9 at [l_peak], not [peak_val].
    With the same control points stored as floats the cubic is 0 at
    [l_max], again not [zero_val]. *)
Lemma weighting_at_l_max_default :
  let self := init no_params 0 in
  let p := params self in
  let w := dist_weight (dwa self) (dwb self) (dwc self) (to_R (zero_val p)) in
  0 < to_R (l_peak p) < to_R (l_max p) /\
  dwa self = -1 /\ dwb self = -8 /\ dwc self = 17 /\
  w (to_R (l_max p)) = -5 /\
  w (to_R (l_max p)) <> to_R (zero_val p) /\
  w (to_R (l_peak p)) = 9 /\
  w (to_R (l_peak p)) <> to_R (peak_val p) /\
  let self_f := init float_control_points 0 in
  let w_f := dist_weight (dwa self_f) (dwb self_f) (dwc self_f)
               (to_R (zero_val (params self_f))) in
  w_f (to_R (l_max (params self_f))) = 0 /\
  w_f (to_R (l_max (params self_f))) <> to_R (zero_val (params self_f)).
Proof.
  cbn. unfold dist_weight.
  assert (E : (- (1 * (1 * (1 * 1)) + 1 * (2 * (2 * 1)) - 2 * (2 * 1) * 10 - 2 * 1 * 1 * 2
                  + 2 * 1 * 2 * 10) / (1 * (1 * 1) * 2 * ((1 - 2) * ((1 - 2) * 1)))
               = - (1 / 2)) /\
              ((2 * 1 * (1 * (1 * (1 * 1))) + 1 * (2 * (2 * (2 * 1))) - 2 * (2 * (2 * 1)) * 10
                - 3 * 1 * (1 * (1 * 1)) * 2 + 3 * (1 * (1 * 1)) * 2 * 10)
               / (1 * (1 * 1) * 2 * ((1 - 2) * ((1 - 2) * 1))) = - 8) /\
              (- (1 * (1 * (1 * (1 * 1))) + 2 * 1 * (2 * (2 * (2 * 1)))
                  - 2 * (2 * (2 * (2 * 1))) * 10 - 3 * 1 * 1 * (2 * (2 * 1))
                  + 3 * 1 * (2 * (2 * 1)) * 10) / (1 * 2 * ((1 - 2) * ((1 - 2) * 1)))
               = 35 / 2)) by (repeat split; field).
  destruct E as (Ea & Eb & Ec).
  repeat split; try lra; rewrite ?Ea, ?Eb, ?Ec; lra.
Qed.

(** C4 (amended): for control points stored as floats with
    [0 < l_peak < l_max] the cubic with the coefficients of lines 43-45
    takes the value [zero_val] at 0 and [peak_val] at [l_peak], has a
    stationary point at [l_peak], and vanishes at [l_max]. *)
Theorem weighting_polynomial (p : Params) (W0 Lp Wp Lm : R) :
  zero_val p = PFloat W0 -> l_peak p = PFloat Lp ->
  peak_val p = PFloat Wp -> l_max p = PFloat Lm ->
  0 < Lp < Lm ->
  let a := to_R (dwa_of p) in
  let b := to_R (dwb_of p) in
  let c := to_R (dwc_of p) in
  let w := dist_weight a b c W0 in
  w 0 = W0 /\
  w Lp = Wp /\
  w Lm = 0 /\
  3 * a * Lp ^ 2 + 2 * b * Lp + c = 0.
Proof.
  intros E0 E1 E2 E3 H a b c w.
  unfold w, a, b, c, dist_weight, dwa_of, dwb_of, dwc_of.
  rewrite E0, E1, E2, E3. cbn.
  repeat split; field; lra.
Qed.

(** ** Configuration *)

(** C9, as stated, fails: a reload that reads a zero resolution is not
    rejected; the invalid value replaces the valid one. *)
Lemma updateParams_accepts_zero_resolution :
  let self := init no_params 0 in
  let self' := updateParams self zero_resolution in
  valid_axes (params self) /\
  ~ valid_axes (read_params zero_resolution) /\
  delta_d (params self') = 0 /\
  params self' <> params self.
Proof.
  cbn. unfold valid_axes, get_param; cbn.
  assert (HPI := PI_RGT_0).
  split; [repeat split; lra|].
  split; [intros (_ & _ & H & _); lra|].
  split; [reflexivity|].
  intros E. apply (f_equal delta_d) in E. cbn in E. lra.
Qed.

(** C9 (amended): [updateParams] validates nothing.  Whatever the
    parameter server holds becomes the active configuration, and the arrays
    built at construction (shape, coordinates, belief) stay as they are. *)
Theorem updateParams_overwrites (self : State) (srv : ParamServer) :
  let self' := updateParams self srv in
  params self' = read_params srv /\
  shape self' = shape self /\ d self' = d self /\ phi self' = phi self /\
  beliefRV self' = beliefRV self /\
  dwa self' = dwa self /\ dwb self' = dwb self /\ dwc self' = dwc self.
Proof. cbn. repeat split. Qed.

(** ** Sums over arrays *)

Lemma sum_upto_ext (n : nat) (f g : nat -> R) :
  (forall i, (i < n)%nat -> f i = g i) -> sum_upto n f = sum_upto n g.
Proof.
  induction n as [|n IH]; intros E; cbn; [reflexivity|].
  rewrite IH, (E n) by (intros; try apply E; lia). reflexivity.
Qed.

Lemma sum_upto_le (n : nat) (f g : nat -> R) :
  (forall i, (i < n)%nat -> f i <= g i) -> sum_upto n f <= sum_upto n g.
Proof.
  induction n as [|n IH]; intros E; cbn; [lra|].
  assert (sum_upto n f <= sum_upto n g) by (apply IH; intros; apply E; lia).
  assert (f n <= g n) by (apply E; lia). lra.
Qed.

Lemma sum_upto_0 (n : nat) : sum_upto n (fun _ => 0) = 0.
Proof. induction n as [|n IH]; cbn; [reflexivity|]. rewrite IH. lra. Qed.

Lemma sum_upto_nonneg (n : nat) (f : nat -> R) :
  (forall i, (i < n)%nat -> 0 <= f i) -> 0 <= sum_upto n f.
Proof.
  intros E. rewrite <- (sum_upto_0 n). apply sum_upto_le. exact E.
Qed.

Lemma sum_upto_scal (n : nat) (f : nat -> R) (k : R) :
  sum_upto n (fun i => f i * k) = sum_upto n f * k.
Proof. induction n as [|n IH]; cbn; [lra|]. rewrite IH. lra. Qed.

Lemma sum_upto_ge_term (n : nat) (f : nat -> R) (k : nat) :
  (forall i, (i < n)%nat -> 0 <= f i) -> (k < n)%nat -> f k <= sum_upto n f.
Proof.
  induction n as [|n IH]; intros E Hk; [lia|]. cbn.
  assert (0 <= f n) by (apply E; lia).
  assert (0 <= sum_upto n f) by (apply sum_upto_nonneg; intros; apply E; lia).
  destruct (Nat.eq_dec k n) as [->|Hne]; [lra|].
  assert (f k <= sum_upto n f) by (apply IH; [intros; apply E|]; lia). lra.
Qed.

(** Adding [w] to one entry adds [w] to the sum. *)
Lemma sum_upto_bump (n : nat) (f : nat -> R) (k : nat) (w : R) :
  (k < n)%nat ->
  sum_upto n (fun i => if Nat.eqb i k then f i + w else f i) = sum_upto n f + w.
Proof.
  induction n as [|n IH]; intros Hk; [lia|]. cbn.
  destruct (Nat.eqb_spec n k) as [->|Hne].
  - rewrite (sum_upto_ext k _ f); [lra|].
    intros i Hi. destruct (Nat.eqb_spec i k); [lia|reflexivity].
  - rewrite IH by lia. lra.
Qed.

Lemma np_sum_ext (sh : Shape) (g h : Grid) :
  same_cells sh g h -> np_sum sh g = np_sum sh h.
Proof.
  intros E. unfold np_sum. apply sum_upto_ext; intros i Hi.
  apply sum_upto_ext; intros j Hj. apply E; assumption.
Qed.

Lemma np_sum_le (sh : Shape) (g h : Grid) :
  (forall i j, (i < fst sh)%nat -> (j < snd sh)%nat -> g i j <= h i j) ->
  np_sum sh g <= np_sum sh h.
Proof.
  intros E. unfold np_sum. apply sum_upto_le; intros i Hi.
  apply sum_upto_le; intros j Hj. apply E; assumption.
Qed.

Lemma np_sum_zeros (sh : Shape) : np_sum sh zeros = 0.
Proof.
  unfold np_sum, zeros.
  rewrite (sum_upto_ext _ _ (fun _ => 0)); [apply sum_upto_0|].
  intros. apply sum_upto_0.
Qed.

Lemma np_sum_nonneg (sh : Shape) (g : Grid) : nonneg sh g -> 0 <= np_sum sh g.
Proof.
  intros E. rewrite <- (np_sum_zeros sh). apply np_sum_le. exact E.
Qed.

Lemma np_sum_div_by (sh : Shape) (g : Grid) (s : R) :
  np_sum sh (div_by g s) = np_sum sh g / s.
Proof.
  unfold np_sum, div_by, Rdiv. rewrite <- sum_upto_scal.
  apply sum_upto_ext; intros. apply sum_upto_scal.
Qed.

(** Dividing an array by its own nonzero total gives total 1. *)
Lemma np_sum_normalised (sh : Shape) (g : Grid) :
  np_sum sh g <> 0 -> np_sum sh (div_by g (np_sum sh g)) = 1.
Proof. intros H. rewrite np_sum_div_by. field. exact H. Qed.

Lemma np_sum_ge_cell (sh : Shape) (g : Grid) (i j : nat) :
  nonneg sh g -> (i < fst sh)%nat -> (j < snd sh)%nat -> g i j <= np_sum sh g.
Proof.
  intros E Hi Hj. unfold np_sum.
  apply Rle_trans with (sum_upto (snd sh) (fun b => g i b)).
  - apply (sum_upto_ge_term (snd sh) (fun b => g i b)); [intros; apply E|]; assumption.
  - apply (sum_upto_ge_term (fst sh) (fun a => sum_upto (snd sh) (fun b => g a b)));
      [|assumption].
    intros a Ha. apply sum_upto_nonneg. intros b Hb. apply E; assumption.
Qed.

Lemma np_sum_zero_cells (sh : Shape) (g : Grid) :
  nonneg sh g -> np_sum sh g = 0 -> same_cells sh g zeros.
Proof.
  intros E Z i j Hi Hj. unfold zeros.
  assert (g i j <= np_sum sh g) by (apply np_sum_ge_cell; assumption).
  assert (0 <= g i j) by (apply E; assumption). lra.
Qed.

Lemma np_sum_add_at (sh : Shape) (g : Grid) (i j : nat) (w : R) :
  (i < fst sh)%nat -> (j < snd sh)%nat ->
  np_sum sh (add_at g i j w) = np_sum sh g + w.
Proof.
  intros Hi Hj. unfold np_sum, add_at.
  rewrite <- (sum_upto_bump (fst sh) (fun a => sum_upto (snd sh) (fun b => g a b)) i w Hi).
  apply sum_upto_ext; intros a Ha.
  destruct (Nat.eqb_spec a i) as [->|Hne]; cbn.
  - apply sum_upto_bump. exact Hj.
  - reflexivity.
Qed.

Lemma nonneg_squares (sh : Shape) (g : Grid) : nonneg sh (fun i j => g i j * g i j).
Proof. intros i j _ _. nra. Qed.

(** The Frobenius norm of an array with non-negative cells is zero exactly
    when its total is. *)
Lemma np_norm_zero_iff (sh : Shape) (g : Grid) :
  nonneg sh g -> (np_norm sh g = 0 <-> np_sum sh g = 0).
Proof.
  intros E. unfold np_norm. split; intros H.
  - apply sqrt_eq_0 in H; [|apply np_sum_nonneg, nonneg_squares].
    rewrite <- (np_sum_zeros sh). apply np_sum_ext. intros i j Hi Hj.
    pose proof (np_sum_zero_cells sh _ (nonneg_squares sh g) H i j Hi Hj) as Q.
    cbn in Q. unfold zeros in *. nra.
  - replace (np_sum sh (fun i j => g i j * g i j)) with 0; [apply sqrt_0|].
    rewrite <- (np_sum_zeros sh). symmetry. apply np_sum_ext. intros i j Hi Hj.
    rewrite (np_sum_zero_cells sh g E H i j Hi Hj). unfold zeros. lra.
Qed.

(** ** Fusion *)

Lemma fuse_ge_likelihood (sh : Shape) (b l : Grid) :
  nonneg sh b -> nonneg sh l -> np_sum sh l <= np_sum sh (fuse b l).
Proof.
  intros Hb Hl. apply np_sum_le. intros i j Hi Hj. unfold fuse.
  specialize (Hb i j Hi Hj). specialize (Hl i j Hi Hj). nra.
Qed.

Lemma updateBelief_sum (self : State) (l : Grid) :
  nonneg (shape self) (beliefRV self) -> nonneg (shape self) l ->
  np_sum (shape self) l = 1 ->
  np_sum (shape self) (beliefRV (updateBelief self l)) = 1 /\
  nonneg (shape self) (beliefRV (updateBelief self l)).
Proof.
  intros Hb Hl H1. cbn.
  pose proof (fuse_ge_likelihood _ _ _ Hb Hl) as Hge.
  split.
  - apply np_sum_normalised. lra.
  - intros i j Hi Hj. unfold div_by, fuse.
    specialize (Hb i j Hi Hj). specialize (Hl i j Hi Hj).
    apply Rmult_le_pos; [nra|]. left. apply Rinv_0_lt_compat. fold (fuse (beliefRV self) l). lra.
Qed.

(** C2: on operands with cells in [0, 1] and a likelihood of total 1,
    [updateBelief] stores [normalize((belief + 1) (.) (likelihood + 1) - 1)];
    the stored grid sums to 1 and has no negative cell. *)
Theorem fusion_normalised (self : State) (measurement_likelihood : Grid) :
  in_unit (shape self) (beliefRV self) ->
  in_unit (shape self) measurement_likelihood ->
  np_sum (shape self) measurement_likelihood = 1 ->
  let self' := updateBelief self measurement_likelihood in
  beliefRV self' = fusion_spec (shape self) (beliefRV self) measurement_likelihood /\
  np_sum (shape self) (beliefRV self') = 1 /\
  nonneg (shape self) (beliefRV self') /\
  shape self' = shape self.
Proof.
  intros Hb Hl H1 self'.
  split; [reflexivity|].
  destruct (updateBelief_sum self measurement_likelihood) as [S N]; try assumption.
  - intros i j Hi Hj. apply Hb; assumption.
  - intros i j Hi Hj. apply Hl; assumption.
  - repeat split; assumption.
Qed.

(** ** Subscripts *)

Lemma np_index_ok (n : nat) (i : Z) (k : nat) : np_index n i = Ok k -> (k < n)%nat.
Proof.
  unfold np_index.
  destruct ((0 <=? i)%Z && (i <? Z.of_nat n)%Z) eqn:E1.
  - intros [= <-]. apply andb_prop in E1 as [A B]. lia.
  - destruct ((- Z.of_nat n <=? i)%Z && (i <? 0)%Z) eqn:E2; [|discriminate].
    intros [= <-]. apply andb_prop in E2 as [A B]. lia.
Qed.

Lemma subscript_ok (n : nat) (i : option Z) (k : nat) : subscript n i = Ok k -> (k < n)%nat.
Proof. destruct i as [z|]; cbn; [apply np_index_ok|discriminate]. Qed.

Lemma accumulate_ok (sh : Shape) (g g' : Grid) (i j : option Z) (w : R) :
  accumulate sh g i j w = Ok g' ->
  exists a b, (a < fst sh)%nat /\ (b < snd sh)%nat /\
              subscript (fst sh) i = Ok a /\ subscript (snd sh) j = Ok b /\
              g' = add_at g a b w.
Proof.
  unfold accumulate, bind.
  destruct (subscript (fst sh) i) as [a|] eqn:Ea; [|discriminate].
  destruct (subscript (snd sh) j) as [b|] eqn:Eb; [|discriminate].
  intros [= <-]. exists a, b.
  repeat split; eauto using subscript_ok.
Qed.

Lemma nonneg_zeros (sh : Shape) : nonneg sh zeros.
Proof. intros i j _ _. unfold zeros. lra. Qed.

Lemma nonneg_add_at (sh : Shape) (g : Grid) (a b : nat) (w : R) :
  nonneg sh g -> 0 <= w -> nonneg sh (add_at g a b w).
Proof.
  intros Hg Hw i j Hi Hj. unfold add_at. specialize (Hg i j Hi Hj).
  destruct (Nat.eqb i a && Nat.eqb j b); lra.
Qed.

(** ** Votes *)

Lemma norm2_nonneg (v : R * R) : 0 <= norm2 v.
Proof. apply sqrt_pos. Qed.

Lemma norm2_sqr (v : R * R) : norm2 v * norm2 v = fst v * fst v + snd v * snd v.
Proof. unfold norm2. apply sqrt_sqrt. nra. Qed.

Lemma norm2_zero_iff (v : R * R) : norm2 v = 0 <-> fst v = 0 /\ snd v = 0.
Proof.
  split.
  - intros H. pose proof (norm2_sqr v) as S. rewrite H in S. split; nra.
  - intros [A B]. unfold norm2. rewrite A, B.
    replace (0 * 0 + 0 * 0) with 0 by lra. apply sqrt_0.
Qed.

(** A vote that is a number has a positive distance: the two projections
    on the tangent differ by the length of the segment. *)
Lemma generateVote_l_pos (p : Params) (segment : Segment) (d_i phi_i l_i : R) :
  generateVote p segment = Vote d_i phi_i l_i -> 0 < l_i.
Proof.
  unfold generateVote.
  set (x1 := x (fst (points segment))). set (y1 := y (fst (points segment))).
  set (x2 := x (snd (points segment))). set (y2 := y (snd (points segment))).
  cbn [fst snd].
  set (n := norm2 (x2 - x1, y2 - y1)).
  destruct (Reqb n 0) eqn:En; [discriminate|].
  apply Reqb_false in En.
  assert (Hn : 0 < n) by (pose proof (norm2_nonneg (x2 - x1, y2 - y1)); fold n in H; lra).
  pose proof (norm2_sqr (x2 - x1, y2 - y1)) as Hs. fold n in Hs. cbn [fst snd] in Hs.
  unfold inner; cbn [fst snd].
  set (a := (x2 - x1) / n * x1 + (y2 - y1) / n * y1).
  set (b := (x2 - x1) / n * x2 + (y2 - y1) / n * y2).
  assert (Hab : b - a = n).
  { unfold a, b.
    replace ((x2 - x1) / n * x2 + (y2 - y1) / n * y2
             - ((x2 - x1) / n * x1 + (y2 - y1) / n * y1))
      with (((x2 - x1) * (x2 - x1) + (y2 - y1) * (y2 - y1)) / n) by (field; lra).
    rewrite <- Hs. field. lra. }
  assert (Hl : 0 < ((if Rltb a 0 then - a else a) + (if Rltb b 0 then - b else b)) / 2).
  { destruct (Rltb a 0) eqn:Ea; destruct (Rltb b 0) eqn:Eb;
      try apply Rltb_true in Ea; try apply Rltb_false in Ea;
      try apply Rltb_true in Eb; try apply Rltb_false in Eb; lra. }
  destruct (color segment).
  - intros [= _ _ <-]. exact Hl.
  - destruct (Rgtb x2 x1); intros [= _ _ <-]; exact Hl.
  - intros [= _ _ <-]. exact Hl.
Qed.

Lemma generateVote_NaN_iff (p : Params) (segment : Segment) :
  generateVote p segment = VoteNaN <->
  x (fst (points segment)) = x (snd (points segment)) /\
  y (fst (points segment)) = y (snd (points segment)).
Proof.
  unfold generateVote. cbn [fst snd].
  set (v := (x (snd (points segment)) - x (fst (points segment)),
             y (snd (points segment)) - y (fst (points segment)))).
  destruct (Reqb (norm2 v) 0) eqn:En.
  - apply Reqb_true, norm2_zero_iff in En. cbn in En. split; [intros _; lra|reflexivity].
  - apply Reqb_false in En. split.
    + destruct (color segment); [discriminate| |discriminate].
      destruct (Rgtb _ _); discriminate.
    + intros [A B]. exfalso. apply En, norm2_zero_iff. cbn. lra.
Qed.

(** ** The likelihood of a frame *)

(** One segment either leaves the likelihood as it is or adds a
    non-negative weight to one cell inside the shape. *)
Lemma vote_segment_ok (self : State) (segment : Segment) (ml ml' : Grid) :
  vote_segment self segment ml = Ok ml' ->
  ml' = ml \/
  exists a b w, (a < fst (shape self))%nat /\ (b < snd (shape self))%nat /\
                0 <= w /\ ml' = add_at ml a b w.
Proof.
  unfold vote_segment.
  destruct (negb (Color_eqb (color segment) YELLOW)); [intros [= <-]; now left|].
  destruct (Rltb _ 0 || Rltb _ 0); [intros [= <-]; now left|].
  destruct (generateVote (params self) segment) as [d_i phi_i l_i|] eqn:Ev; [|discriminate].
  apply generateVote_l_pos in Ev.
  destruct (_ || _ || _ || _); [intros [= <-]; now left|].
  destruct (_ && _); [intros [= <-]; now left|].
  destruct (use_distance_weighting (params self)).
  - destruct (Rltb _ 0) eqn:Ew; [intros [= <-]; now left|].
    apply Rltb_false in Ew.
    intros H. apply accumulate_ok in H as (a & b & Ha & Hb & _ & _ & ->).
    right. exists a, b. eexists. repeat split; eauto.
  - intros H. apply accumulate_ok in H as (a & b & Ha & Hb & _ & _ & ->).
    right. exists a, b, (1 / l_i). repeat split; auto.
    unfold Rdiv. rewrite Rmult_1_l. left. apply Rinv_0_lt_compat. exact Ev.
Qed.

Lemma vote_segment_nonneg (self : State) (segment : Segment) (ml ml' : Grid) :
  nonneg (shape self) ml -> vote_segment self segment ml = Ok ml' ->
  nonneg (shape self) ml'.
Proof.
  intros Hn H. apply vote_segment_ok in H as [->|(a & b & w & _ & _ & Hw & ->)].
  - exact Hn.
  - apply nonneg_add_at; assumption.
Qed.

Lemma for_each_nonneg (self : State) (segs : list Segment) (ml ml' : Grid) :
  nonneg (shape self) ml -> for_each segs (vote_segment self) ml = Ok ml' ->
  nonneg (shape self) ml'.
Proof.
  revert ml. induction segs as [|s rest IH]; intros ml Hn; cbn.
  - intros [= <-]. exact Hn.
  - destruct (vote_segment self s ml) as [m|] eqn:E; cbn; [|discriminate].
    apply IH. eapply vote_segment_nonneg; eassumption.
Qed.

Lemma likelihood_nonneg (self : State) (segs : list Segment) (raw : Grid) :
  likelihood self segs = Ok raw -> nonneg (shape self) raw.
Proof. apply for_each_nonneg, nonneg_zeros. Qed.

(** ** Frames *)

Lemma np_norm_zeros (sh : Shape) : np_norm sh zeros = 0.
Proof. apply np_norm_zero_iff; [apply nonneg_zeros|apply np_sum_zeros]. Qed.

(** What a frame that publishes went through. *)
Lemma processSegments_published (self self' : State) (msg : SegmentList)
    (t_prop t_upd : R) (pub : Published) :
  processSegments self msg t_prop t_upd = Ok (self', Some pub) ->
  active self = true /\
  exists self1 raw,
    propagation_step self t_prop t_upd = Ok self1 /\
    likelihood self1 (segments msg) = Ok raw /\
    np_norm (shape self1) raw <> 0 /\
    let ml := div_by raw (np_sum (shape self1) raw) in
    let self2 := if use_propagation (params self1)
                 then updateBelief self1 ml else set_beliefRV self1 ml in
    self' = set_lanePose self2 (extract self2 msg ml) /\
    pub = {| lane_pose := extract self2 msg ml;
             in_lane_msg := in_lane (extract self2 msg ml) |}.
Proof.
  unfold processSegments.
  destruct (active self); cbn [negb]; [|discriminate].
  intros H. split; [reflexivity|].
  destruct (propagation_step self t_prop t_upd) as [self1|] eqn:E1; cbn [bind] in H; [|discriminate].
  destruct (likelihood self1 (segments msg)) as [raw|] eqn:E2; cbn [bind] in H; [|discriminate].
  destruct (Reqb (np_norm (shape self1) raw) 0) eqn:E3; [discriminate|].
  apply Reqb_false in E3. injection H as <- <-.
  exists self1, raw. repeat split; assumption.
Qed.

Lemma normalised_likelihood (sh : Shape) (raw : Grid) :
  nonneg sh raw -> np_norm sh raw <> 0 ->
  0 < np_sum sh raw /\
  nonneg sh (div_by raw (np_sum sh raw)) /\
  np_sum sh (div_by raw (np_sum sh raw)) = 1 /\
  np_norm sh (div_by raw (np_sum sh raw)) <> 0.
Proof.
  intros Hn Hz.
  assert (Hs : np_sum sh raw <> 0) by (intros E; apply Hz, np_norm_zero_iff; assumption).
  assert (Hp : 0 < np_sum sh raw) by (pose proof (np_sum_nonneg sh raw Hn); lra).
  assert (Hq : nonneg sh (div_by raw (np_sum sh raw))).
  { intros i j Hi Hj. unfold div_by. apply Rmult_le_pos; [apply Hn; assumption|].
    left. apply Rinv_0_lt_compat. exact Hp. }
  repeat split; try assumption.
  - apply np_sum_normalised. exact Hs.
  - intros E. apply np_norm_zero_iff in E; [|exact Hq].
    rewrite np_sum_normalised in E by exact Hs. lra.
Qed.

(** C6: a frame whose likelihood has no mass (in particular a frame with no
    segment) ends at line 278: nothing is published, no exception is
    raised, and the node is left as the propagation step of lines 115-117
    left it (untouched when propagation is off). *)
Theorem frame_without_observation (self self1 : State) (msg : SegmentList)
    (t_prop t_upd : R) :
  propagation_step self t_prop t_upd = Ok self1 ->
  (segments msg = [] \/
   exists raw, likelihood self1 (segments msg) = Ok raw /\ np_sum (shape self1) raw = 0) ->
  processSegments self msg t_prop t_upd = Ok (if active self then self1 else self, None) /\
  (use_propagation (params self) = false -> self1 = self) /\
  (use_propagation (params self) = true ->
   exists s, propagateBelief self t_prop = Ok s /\ self1 = set_t_last_update s t_upd).
Proof.
  intros Hp Hobs.
  assert (Hraw : exists raw, likelihood self1 (segments msg) = Ok raw /\
                             np_norm (shape self1) raw = 0).
  { destruct Hobs as [-> | (raw & Hl & Hz)].
    - exists zeros. split; [reflexivity|apply np_norm_zeros].
    - exists raw. split; [exact Hl|].
      apply np_norm_zero_iff; [eapply likelihood_nonneg; eassumption|exact Hz]. }
  destruct Hraw as (raw & Hl & Hz).
  split; [|split].
  - unfold processSegments. destruct (active self); cbn [negb]; [|reflexivity].
    rewrite Hp; cbn [bind]. rewrite Hl; cbn [bind].
    apply Reqb_true in Hz. rewrite Hz. reflexivity.
  - intros Hu. unfold propagation_step in Hp. rewrite Hu in Hp. congruence.
  - intros Hu. unfold propagation_step in Hp. rewrite Hu in Hp.
    destruct (propagateBelief self t_prop) as [s|]; cbn [bind] in Hp; [|discriminate].
    exists s. split; congruence.
Qed.

(** ** Segments the loop passes over *)

Lemma vote_segment_passed_over (self : State) (segment : Segment) (ml : Grid) :
  passed_over segment -> vote_segment self segment ml = Ok ml.
Proof.
  unfold vote_segment. intros [Hc | Hx].
  - destruct (color segment); cbn; try reflexivity. contradiction.
  - destruct (negb _); [reflexivity|].
    replace (Rltb _ 0 || Rltb _ 0) with true; [reflexivity|].
    symmetry. apply orb_true_iff.
    destruct Hx as [Hx | Hx]; [left|right]; apply Rltb_true; exact Hx.
Qed.

Lemma for_each_app {A B : Type} (l1 l2 : list B) (body : B -> A -> result A) (a : A) :
  for_each (l1 ++ l2) body a = do a' <- for_each l1 body a; for_each l2 body a'.
Proof.
  revert a. induction l1 as [|b l1 IH]; intros a; cbn; [reflexivity|].
  destruct (body b a); cbn; [apply IH|reflexivity].
Qed.

Lemma vote_segment_zero_length (self : State) (segment : Segment) (ml : Grid) :
  color segment = YELLOW ->
  0 <= x (fst (points segment)) ->
  x (fst (points segment)) = x (snd (points segment)) ->
  y (fst (points segment)) = y (snd (points segment)) ->
  vote_segment self segment ml = Raise ValueError.
Proof.
  intros Hc Hx Ex Ey. unfold vote_segment. rewrite Hc. cbn [Color_eqb negb].
  replace (Rltb _ 0 || Rltb _ 0) with false.
  - replace (generateVote _ _) with VoteNaN; [reflexivity|].
    symmetry. apply generateVote_NaN_iff. split; assumption.
  - symmetry. apply orb_false_iff. split; apply Rltb_false; lra.
Qed.

Lemma processSegments_raises (self self1 : State) (msg : SegmentList)
    (t_prop t_upd : R) (e : exn) :
  active self = true ->
  propagation_step self t_prop t_upd = Ok self1 ->
  likelihood self1 (segments msg) = Raise e ->
  processSegments self msg t_prop t_upd = Raise e.
Proof.
  intros Ha Hp Hl. unfold processSegments. rewrite Ha, Hp. cbn [negb bind].
  rewrite Hl. reflexivity.
Qed.

(** A frame with one zero-length yellow segment ends in an exception. *)
Lemma zero_length_frame_raises (t_prop t_upd : R) :
  processSegments (init no_params 0) zero_length_frame t_prop t_upd = Raise ValueError.
Proof.
  apply processSegments_raises with (self1 := init no_params 0); try reflexivity.
  unfold likelihood, zero_length_frame. cbn [segments for_each].
  rewrite vote_segment_zero_length; try reflexivity. cbn. lra.
Qed.

(** The converse of [processSegments_published]. *)
Lemma processSegments_publishes (self self1 : State) (msg : SegmentList)
    (t_prop t_upd : R) (raw : Grid) :
  active self = true ->
  propagation_step self t_prop t_upd = Ok self1 ->
  likelihood self1 (segments msg) = Ok raw ->
  np_sum (shape self1) raw <> 0 ->
  exists self' pub, processSegments self msg t_prop t_upd = Ok (self', Some pub).
Proof.
  intros Ha Hp Hl Hs. unfold processSegments. rewrite Ha, Hp. cbn [negb bind].
  rewrite Hl. cbn [bind].
  replace (Reqb (np_norm (shape self1) raw) 0) with false; [eauto|].
  symmetry. apply Reqb_false. intros E. apply Hs.
  apply np_norm_zero_iff; [eapply likelihood_nonneg; eassumption|exact E].
Qed.

(** X19: a segment that is not yellow, or that has a negative x
    coordinate at either endpoint (lines 249-252), is passed over: it adds
    no vote, raises nothing, and the likelihood of the frame is the one of
    the frame without it. *)
Theorem passed_over_segment_is_skipped (self : State) (segment : Segment)
    (before after : list Segment) :
  passed_over segment ->
  (forall ml, vote_segment self segment ml = Ok ml) /\
  likelihood self (before ++ segment :: after) = likelihood self (before ++ after).
Proof.
  intros Hs. split; [intros ml; apply vote_segment_passed_over; exact Hs|].
  unfold likelihood. rewrite !for_each_app.
  destruct (for_each before (vote_segment self) zeros) as [m|]; cbn; [|reflexivity].
  rewrite vote_segment_passed_over by exact Hs. reflexivity.
Qed.

(** ** The vote of a yellow segment *)

Lemma Rabs_as_test (a : R) : (if Rltb a 0 then - a else a) = Rabs a.
Proof.
  destruct (Rltb a 0) eqn:E.
  - apply Rltb_true in E. rewrite Rabs_left; lra.
  - apply Rltb_false in E. rewrite Rabs_right; lra.
Qed.

Lemma generateVote_yellow_spec (p : Params) (segment : Segment) :
  color segment = YELLOW ->
  let p1 := (x (fst (points segment)), y (fst (points segment))) in
  let p2 := (x (snd (points segment)), y (snd (points segment))) in
  generateVote p segment =
  match yellow_vote_spec (lanewidth p) (linewidth_yellow p) p1 p2 with
  | Some v => v
  | None => VoteNaN
  end.
Proof.
  intros Hc p1 p2. unfold generateVote, yellow_vote_spec, unit_tangent.
  fold p1 p2. rewrite Hc. unfold norm2. cbn [fst snd].
  replace ((fst p2 - fst p1) ^ 2 + (snd p2 - snd p1) ^ 2)
    with ((fst p2 - fst p1) * (fst p2 - fst p1) + (snd p2 - snd p1) * (snd p2 - snd p1))
    by ring.
  unfold Reqb. destruct (Req_dec_T _ 0) as [E|E]; [reflexivity|].
  rewrite !Rabs_as_test. unfold Rgtb, Rltb.
  destruct (Rlt_dec (fst p1) (fst p2)); reflexivity.
Qed.

Lemma PI_bounds : 3141 / 1000 < PI < 3143 / 1000.
Proof.
  pose proof (PI_2_3_7_ineq 1) as H.
  unfold sum_f_R0, tg_alt, PI_2_3_7_tg, Ratan_seq in H.
  simpl in H. lra.
Qed.

Lemma sqrt2_bounds : 141 / 100 < sqrt 2 < 142 / 100.
Proof.
  split; apply Rsqr_incrst_0; try lra; try apply sqrt_pos;
    rewrite Rsqr_sqrt by lra; unfold Rsqr; lra.
Qed.

Lemma inv_sqrt2_bounds : 704 / 1000 < / sqrt 2 < 710 / 1000.
Proof.
  pose proof sqrt2_bounds as [A B].
  assert (P : 0 < sqrt 2) by lra.
  assert (I : sqrt 2 * / sqrt 2 = 1) by (apply Rinv_r; lra).
  assert (Q : 0 < / sqrt 2) by (apply Rinv_0_lt_compat; exact P).
  split; nra.
Qed.

Lemma shape_default_axes (srv : ParamServer) (t0 : R) :
  let p := read_params srv in
  d_min p = - (7 / 10) -> d_max p = 5 / 10 -> delta_d p = 2 / 100 ->
  phi_min p = - PI / 2 -> phi_max p = PI / 2 -> delta_phi p = 2 / 100 ->
  shape (init srv t0) = (60, 158)%nat.
Proof.
  intros p H1 H2 H3 H4 H5 H6.
  change (shape (init srv t0))
    with (mgrid_len (d_min p) (d_max p) (delta_d p),
          mgrid_len (phi_min p) (phi_max p) (delta_phi p)).
  rewrite H1, H2, H3, H4, H5, H6. unfold mgrid_len.
  pose proof PI_bounds as [A B].
  f_equal.
  - rewrite (Zceil_eq 60); [reflexivity|]. lra.
  - rewrite (Zceil_eq 158); [reflexivity|]. lra.
Qed.

(** Shape of the arrays under the default parameters: 60 offsets, 158 angles. *)
Lemma default_shape (t0 : R) : shape (init no_params t0) = (60, 158)%nat.
Proof. apply shape_default_axes; reflexivity. Qed.

Lemma diagonal_vote (p : Params) :
  generateVote p diagonal_segment = Vote (lanewidth p / 2 - / sqrt 2) (PI / 4) (/ sqrt 2).
Proof.
  pose proof sqrt2_bounds as [A B].
  pose proof inv_sqrt2_bounds as [C D].
  unfold generateVote. cbn [diagonal_segment points color fst snd x y].
  replace (norm2 (0 - 1, 1 - 0)) with (sqrt 2)
    by (unfold norm2; f_equal; cbn; lra).
  replace (Reqb (sqrt 2) 0) with false by (symmetry; apply Reqb_false; lra).
  unfold inner. cbn [fst snd].
  replace ((1 - 0) / sqrt 2) with (/ sqrt 2) by (field; lra).
  replace ((0 - 1) / sqrt 2) with (- / sqrt 2) by (field; lra).
  replace (Rltb (- / sqrt 2 * 1 + / sqrt 2 * 0) 0) with true
    by (symmetry; apply Rltb_true; lra).
  replace (Rltb (- / sqrt 2 * 0 + / sqrt 2 * 1) 0) with false
    by (symmetry; apply Rltb_false; lra).
  replace (Rgtb 0 1) with false by (symmetry; apply Rgtb_false; lra).
  rewrite asin_inv_sqrt2. f_equal; lra.
Qed.

(** A yellow segment in front of the robot whose vote is a number inside
    the grid bounds adds [1/l_i] to the cell of its bins, when neither the
    distance filter nor the distance weighting is on. *)
Lemma vote_segment_votes (self : State) (segment : Segment) (ml : Grid) (d_i phi_i l_i : R) :
  let cfg := params self in
  color segment = YELLOW ->
  0 <= x (fst (points segment)) -> 0 <= x (snd (points segment)) ->
  generateVote cfg segment = Vote d_i phi_i l_i ->
  d_min cfg <= d_i <= d_max cfg -> phi_min cfg <= phi_i <= phi_max cfg ->
  use_max_segment_dist cfg = false -> use_distance_weighting cfg = false ->
  vote_segment self segment ml =
  accumulate (shape self) ml (bin d_i (d_min cfg) (delta_d cfg))
    (bin phi_i (phi_min cfg) (delta_phi cfg)) (1 / l_i).
Proof.
  intros cfg Hc Hx1 Hx2 Hv Hd Hp Hm Hw. unfold vote_segment. fold cfg.
  rewrite Hc, Hv, Hm, Hw. cbn [Color_eqb negb andb].
  replace (Rltb _ 0 || Rltb _ 0) with false
    by (symmetry; apply orb_false_iff; split; apply Rltb_false; lra).
  replace (_ || _ || _ || _) with false; [reflexivity|].
  symmetry. rewrite !orb_false_iff. repeat split; apply Rltb_false; lra.
Qed.

Lemma bin_eq (v v_min delta : R) (k : Z) :
  0 < delta -> v_min + IZR k * delta <= v < v_min + (IZR k + 1) * delta ->
  bin v v_min delta = Some k.
Proof.
  intros Hd [A B]. unfold bin.
  replace (Reqb delta 0) with false by (symmetry; apply Reqb_false; lra).
  f_equal. apply Zfloor_eq.
  assert (E : (v - v_min) / delta * delta = v - v_min) by (field; lra).
  split.
  - apply Rmult_le_reg_r with delta; [exact Hd|]. rewrite E. lra.
  - apply Rmult_lt_reg_r with delta; [exact Hd|]. rewrite E. lra.
Qed.

Lemma diagonal_vote_segment (self : State) (ml : Grid) :
  default_grid self ->
  vote_segment self diagonal_segment ml = Ok (add_at ml 9 117 (1 / / sqrt 2)).
Proof.
  intros (H1 & H2 & H3 & H4 & H5 & H6 & H7 & H8 & H9 & H10).
  pose proof inv_sqrt2_bounds as [C D].
  pose proof PI_bounds as [A B].
  rewrite vote_segment_votes
    with (d_i := lanewidth (params self) / 2 - / sqrt 2)
         (phi_i := PI / 4) (l_i := / sqrt 2);
    try assumption; try reflexivity; try apply diagonal_vote;
    try (cbn [diagonal_segment points fst snd x]; lra);
    try (rewrite ?H1, ?H2, ?H4, ?H5, ?H7; lra).
  rewrite H10, H1, H3, H4, H6, H7.
  rewrite (bin_eq _ _ _ 9), (bin_eq _ _ _ 117); try reflexivity; lra.
Qed.

Lemma default_grid_init (t0 : R) : default_grid (init no_params t0).
Proof.
  unfold default_grid. rewrite default_shape.
  repeat split; reflexivity.
Qed.

Lemma diagonal_likelihood (t0 : R) :
  likelihood (init no_params t0) [diagonal_segment]
  = Ok (add_at zeros 9 117 (1 / / sqrt 2)).
Proof.
  unfold likelihood. cbn [for_each].
  rewrite diagonal_vote_segment by apply default_grid_init. reflexivity.
Qed.

(** [n] copies of that segment put [n] times its weight in cell (9, 117)
    and touch no other cell. *)
Lemma diagonal_votes (self : State) (n : nat) (ml : Grid) :
  default_grid self ->
  exists raw,
    for_each (repeat diagonal_segment n) (vote_segment self) ml = Ok raw /\
    raw 9%nat 117%nat = ml 9%nat 117%nat + INR n * sqrt 2 /\
    forall i j, (i <> 9 \/ j <> 117)%nat -> raw i j = ml i j.
Proof.
  intros Hg. revert ml. induction n as [|n IH]; intros ml.
  - exists ml. split; [reflexivity|]. split; [cbn; lra|reflexivity].
  - cbn [repeat for_each]. rewrite diagonal_vote_segment by exact Hg. cbn [bind].
    destruct (IH (add_at ml 9 117 (1 / / sqrt 2))) as (raw & E & C & O).
    exists raw. split; [exact E|].
    pose proof sqrt2_bounds as [A B].
    assert (Q : 1 / / sqrt 2 = sqrt 2) by (field; lra).
    split.
    + rewrite C. unfold add_at. rewrite !Nat.eqb_refl. cbn [andb].
      rewrite S_INR, Q. lra.
    + intros i j H. rewrite (O i j H). unfold add_at.
      destruct (Nat.eqb i 9) eqn:Ei; destruct (Nat.eqb j 117) eqn:Ej;
        cbn [andb]; try reflexivity.
      apply Nat.eqb_eq in Ei, Ej. destruct H; contradiction.
Qed.

Lemma add_at_cells (i j : nat) (w : R) :
  add_at zeros i j w i j = w /\
  forall a b, (a <> i \/ b <> j) -> add_at zeros i j w a b = 0.
Proof.
  unfold add_at, zeros. split.
  - rewrite !Nat.eqb_refl. cbn. lra.
  - intros a b H. destruct (Nat.eqb a i) eqn:Ea; destruct (Nat.eqb b j) eqn:Eb;
      cbn; try reflexivity.
    apply Nat.eqb_eq in Ea, Eb. destruct H; contradiction.
Qed.

(** C3: the vote [generateVote] returns for a yellow segment with
    non-negative coordinates is the one of the formulas of the
    specification (none, that is not-a-number, when the endpoints
    coincide).  Under the default parameters (lanewidth 0.4,
    linewidth_yellow 0.02, no distance weighting) the yellow segment from
    (1, 0) to (0, 1) votes (0.2 - 1/sqrt 2, pi/4, 1/sqrt 2); its two bins
    are 9 and 117, and the likelihood of the frame that holds it has
    [1/l_i = sqrt 2] in cell (9, 117) and 0 in every other cell. *)
Theorem generateVote_yellow (p : Params) (segment : Segment) :
  color segment = YELLOW ->
  0 <= x (fst (points segment)) -> 0 <= y (fst (points segment)) ->
  0 <= x (snd (points segment)) -> 0 <= y (snd (points segment)) ->
  generateVote p segment =
    match yellow_vote_spec (lanewidth p) (linewidth_yellow p)
            (x (fst (points segment)), y (fst (points segment)))
            (x (snd (points segment)), y (snd (points segment))) with
    | Some v => v
    | None => VoteNaN
    end /\
  (segment = diagonal_segment ->
   lanewidth p = 4 / 10 -> linewidth_yellow p = 2 / 100 ->
   generateVote p segment = Vote (2 / 10 - / sqrt 2) (PI / 4) (/ sqrt 2) /\
   forall t0,
     let self := init no_params t0 in
     params self = read_params no_params /\
     lanewidth (params self) = 4 / 10 /\
     linewidth_yellow (params self) = 2 / 100 /\
     use_distance_weighting (params self) = false /\
     Zfloor ((2 / 10 - / sqrt 2 - d_min (params self)) / delta_d (params self)) = 9%Z /\
     Zfloor ((PI / 4 - phi_min (params self)) / delta_phi (params self)) = 117%Z /\
     exists raw,
       likelihood self [segment] = Ok raw /\
       raw 9%nat 117%nat = sqrt 2 /\
       (forall i j, (i <> 9 \/ j <> 117)%nat -> raw i j = 0) /\
       np_sum (shape self) raw = sqrt 2).
Proof.
  intros Hc _ _ _ _. split; [apply generateVote_yellow_spec; exact Hc|].
  intros -> Hl Hw. split.
  - rewrite diagonal_vote, Hl. f_equal. lra.
  - intros t0 self.
    pose proof inv_sqrt2_bounds as [C D].
    pose proof PI_bounds as [A B].
    pose proof sqrt2_bounds as [E F].
    assert (Q : 1 / / sqrt 2 = sqrt 2) by (field; lra).
    split; [reflexivity|]. split; [reflexivity|]. split; [reflexivity|].
    split; [reflexivity|].
    split; [apply Zfloor_eq; cbn; unfold get_param; cbn; lra|].
    split; [apply Zfloor_eq; cbn; unfold get_param; cbn; lra|].
    exists (add_at zeros 9 117 (1 / / sqrt 2)).
    split; [apply diagonal_likelihood|].
    destruct (add_at_cells 9 117 (1 / / sqrt 2)) as [H1 H2].
    split; [rewrite H1; exact Q|]. split; [exact H2|].
    unfold self. rewrite default_shape.
    rewrite np_sum_add_at by (cbn; lia). rewrite np_sum_zeros. lra.
Qed.

(** ** Initialisation *)

Lemma pdf_nonneg (mean cov : R * R) (u v : R) : 0 <= pdf mean cov u v.
Proof.
  unfold pdf. apply Rmult_le_pos; [left; apply exp_pos|].
  assert (D : 0 <= 2 * PI * sqrt (fst cov * snd cov)).
  { pose proof PI_RGT_0. pose proof (sqrt_pos (fst cov * snd cov)). nra. }
  destruct D as [D | <-]; [left; apply Rinv_0_lt_compat; exact D | rewrite Rinv_0; lra].
Qed.

Lemma nonneg_initial_belief (self : State) :
  nonneg (shape self) (beliefRV (initializeBelief self)).
Proof. intros i j _ _. apply pdf_nonneg. Qed.

(** Near the mean the default prior density is above 1. *)
Lemma pdf_default_peak (v : R) :
  Rabs v <= 1 / 100 -> 1 < pdf (0, 0) (1 / 10, 1 / 100) 0 v.
Proof.
  intros Hv. unfold pdf. cbn [fst snd].
  pose proof PI_bounds as [A B].
  assert (S : 0 < sqrt (1 / 10 * (1 / 100)) < 32 / 1000).
  { split; [apply sqrt_lt_R0; lra|].
    apply Rsqr_incrst_0; try lra; try apply sqrt_pos.
    rewrite Rsqr_sqrt by lra. unfold Rsqr. lra. }
  set (D := 2 * PI * sqrt (1 / 10 * (1 / 100))).
  assert (HD : 0 < D < 21 / 100) by (unfold D; nra).
  set (e := - ((0 - 0) ^ 2 / (1 / 10) + (v - 0) ^ 2 / (1 / 100)) / 2).
  assert (He : - (1 / 100) <= e).
  { unfold e. unfold Rabs in Hv. destruct (Rcase_abs v); nra. }
  pose proof (exp_ineq1_le e) as Hx.
  apply Rmult_lt_reg_r with D; [lra|].
  replace (exp e / D * D) with (exp e) by (field; lra). lra.
Qed.

(** A belief freshly initialised with the default prior and grid weighs
    more than 1. *)
Lemma initial_mass_above_1 (self : State) :
  mean_0 (params self) = (0, 0) -> cov_0 (params self) = (1 / 10, 1 / 100) ->
  (35 < fst (shape self))%nat -> (79 < snd (shape self))%nat ->
  d self 35%nat 79%nat = 0 -> Rabs (phi self 35%nat 79%nat) <= 1 / 100 ->
  1 < beliefRV (initializeBelief self) 35%nat 79%nat /\
  1 < np_sum (shape self) (beliefRV (initializeBelief self)).
Proof.
  intros Hm Hc Hi Hj Hd Hp.
  assert (H1 : 1 < beliefRV (initializeBelief self) 35%nat 79%nat).
  { cbn. rewrite Hm, Hc, Hd. apply pdf_default_peak. exact Hp. }
  split; [exact H1|].
  eapply Rlt_le_trans; [exact H1|].
  apply (np_sum_ge_cell (shape self)); [apply nonneg_initial_belief| |]; assumption.
Qed.

Lemma default_cell_35_79 :
  - (7 / 10) + INR 35 * (2 / 100) = 0 /\
  Rabs (- PI / 2 + INR 79 * (2 / 100)) <= 1 / 100.
Proof.
  pose proof PI_bounds as [A B].
  rewrite !INR_IZR_INZ. cbn [Z.of_nat Pos.of_succ_nat Pos.succ].
  split; [lra|]. apply Rabs_le. lra.
Qed.

(** C1, as stated, fails: the belief [__init__] leaves under the default
    configuration does not sum to 1; one cell alone is above 1. *)
Lemma initial_belief_not_normalised :
  let self := init no_params 0 in
  valid_axes (params self) /\
  1 < np_sum (shape self) (beliefRV self) /\
  np_sum (shape self) (beliefRV self) <> 1.
Proof.
  intros self.
  assert (V : valid_axes (params self)).
  { cbn. unfold valid_axes, get_param; cbn. pose proof PI_RGT_0. repeat split; lra. }
  assert (M : 1 < np_sum (shape self) (beliefRV self)).
  { unfold self, init.
    match goal with |- context [initializeBelief ?s] => set (s0 := s) end.
    change (shape (initializeBelief s0)) with (shape s0).
    assert (Hs : shape s0 = (60, 158)%nat) by (apply (default_shape 0)).
    destruct default_cell_35_79 as [Hd Hp].
    apply initial_mass_above_1; try reflexivity; try (rewrite Hs; cbn; lia).
    - exact Hd.
    - exact Hp. }
  repeat split; try apply V; lra.
Qed.

(** ** Propagation *)

Lemma propagateBelief_cases (self self' : State) (now : R) :
  propagateBelief self now = Ok self' ->
  exists p, remap self (now - t_last_update self) = Ok p /\
    let s := gaussian_filter (scale 100 p) (cov_mask (params self)) (shape self) in
    (np_sum (shape self) s = 0 /\ self' = self) \/
    (np_sum (shape self) s <> 0 /\
     self' = set_beliefRV self (div_by s (np_sum (shape self) s))).
Proof.
  unfold propagateBelief.
  destruct (remap self (now - t_last_update self)) as [p|]; cbn [bind]; [|discriminate].
  intros H. exists p. split; [reflexivity|]. cbn zeta.
  destruct (Reqb _ 0) eqn:E; injection H as <-.
  - left. apply Reqb_true in E. split; [exact E|reflexivity].
  - right. apply Reqb_false in E. split; [exact E|reflexivity].
Qed.

Lemma np_index_of_nat (n i : nat) : (i < n)%nat -> np_index n (Z.of_nat i) = Ok i.
Proof.
  intros H. unfold np_index.
  replace ((0 <=? Z.of_nat i)%Z && (Z.of_nat i <? Z.of_nat n)%Z) with true.
  - rewrite Nat2Z.id. reflexivity.
  - symmetry. apply andb_true_intro. split; [apply Z.leb_le|apply Z.ltb_lt]; lia.
Qed.

Lemma bin_grid_point (v_min delta : R) (i : nat) :
  0 < delta -> bin (v_min + INR i * delta) v_min delta = Some (Z.of_nat i).
Proof.
  intros Hd. apply bin_eq; [exact Hd|]. rewrite INR_IZR_INZ. nra.
Qed.

(** With no velocity a cell inside the shape maps to itself: over the
    reals the quotient of line 351 is the row number itself.  (In floating
    point it can round just below it; the statements of the claims use
    this lemma for totals only.) *)
Lemma propagate_cell_stationary (self : State) (delta_t : R) (i j : nat) (q : Grid) :
  grid_matches self -> 0 < delta_d (params self) -> 0 < delta_phi (params self) ->
  v_current self = 0 -> w_current self = 0 ->
  (i < fst (shape self))%nat -> (j < snd (shape self))%nat ->
  propagate_cell self delta_t i j q
  = Ok (if Rgtb (beliefRV self i j) 0 then add_at q i j (beliefRV self i j) else q).
Proof.
  intros (Gd & Gp & Bd & Bp) Hdd Hdp Hv Hw Hi Hj. unfold propagate_cell.
  destruct (Rgtb (beliefRV self i j) 0); [|reflexivity].
  rewrite Hv, Hw, Gd, Gp.
  replace (d_min (params self) + INR i * delta_d (params self)
           + 0 * delta_t * sin (phi_min (params self) + INR j * delta_phi (params self)))
    with (d_min (params self) + INR i * delta_d (params self)) by ring.
  replace (phi_min (params self) + INR j * delta_phi (params self) + 0 * delta_t)
    with (phi_min (params self) + INR j * delta_phi (params self)) by ring.
  specialize (Bd i Hi). specialize (Bp j Hj).
  pose proof (pos_INR i). pose proof (pos_INR j).
  replace (_ || _ || _ || _) with false.
  - rewrite !bin_grid_point by assumption.
    unfold accumulate, subscript. rewrite !np_index_of_nat by assumption. reflexivity.
  - symmetry. rewrite !orb_false_iff. repeat split; apply Rltb_false; nra.
Qed.

Ltac nat_cases :=
  repeat match goal with
  | |- context [Nat.eqb ?a ?b] => destruct (Nat.eqb_spec a b)
  | |- context [Nat.ltb ?a ?b] => destruct (Nat.ltb_spec a b)
  end; subst; cbn [andb]; try lia.

Lemma remap_row_stationary (self : State) (delta_t : R) (i : nat) :
  grid_matches self -> 0 < delta_d (params self) -> 0 < delta_phi (params self) ->
  v_current self = 0 -> w_current self = 0 ->
  (i < fst (shape self))%nat ->
  forall m p, (m <= snd (shape self))%nat ->
    for_range m (fun j q => propagate_cell self delta_t i j q) p
    = Ok (fun a c => if Nat.eqb a i && (c <? m)%nat && Rgtb (beliefRV self a c) 0
                     then p a c + beliefRV self a c else p a c).
Proof.
  intros G Hdd Hdp Hv Hw Hi m p. induction m as [|m IH]; intros Hm.
  - cbn [for_range]. f_equal.
    apply functional_extensionality; intros a; apply functional_extensionality; intros c.
    rewrite andb_false_r. reflexivity.
  - cbn [for_range]. rewrite IH by lia. cbn [bind].
    rewrite propagate_cell_stationary by (assumption || lia). f_equal.
    apply functional_extensionality; intros a; apply functional_extensionality; intros c.
    unfold add_at.
    destruct (Rgtb (beliefRV self i m) 0) eqn:Eim.
    + nat_cases; try rewrite Eim; cbn [andb]; try reflexivity.
    + nat_cases; try rewrite Eim; cbn [andb]; try reflexivity.
      assert (c = m) by lia. subst c. rewrite Eim. reflexivity.
Qed.

(** With no velocity the remapped grid is, over the reals, the positive
    part of the belief. *)
Lemma remap_stationary (self : State) (delta_t : R) :
  grid_matches self -> 0 < delta_d (params self) -> 0 < delta_phi (params self) ->
  v_current self = 0 -> w_current self = 0 ->
  remap self delta_t = Ok (clip (shape self) (beliefRV self)).
Proof.
  intros G Hdd Hdp Hv Hw. unfold remap.
  assert (H : forall n, (n <= fst (shape self))%nat ->
            for_range n
              (fun i p => for_range (snd (shape self))
                            (fun j q => propagate_cell self delta_t i j q) p) zeros
            = Ok (fun a c => if (a <? n)%nat && (c <? snd (shape self))%nat
                                && Rgtb (beliefRV self a c) 0
                             then beliefRV self a c else 0)).
  { induction n as [|n IH]; intros Hn.
    - reflexivity.
    - cbn [for_range]. rewrite IH by lia. cbn [bind].
      rewrite remap_row_stationary by (assumption || lia). f_equal.
      apply functional_extensionality; intros a; apply functional_extensionality; intros c.
      destruct (Rgtb (beliefRV self a c) 0) eqn:E;
        nat_cases; rewrite ?andb_false_r; cbn [andb]; try reflexivity; try lra. }
  rewrite H by lia. reflexivity.
Qed.

Lemma clip_nonneg (sh : Shape) (b : Grid) : nonneg sh b -> same_cells sh (clip sh b) b.
Proof.
  intros Hb i j Hi Hj. unfold clip.
  apply Nat.ltb_lt in Hi. apply Nat.ltb_lt in Hj. rewrite Hi, Hj. cbn [andb].
  destruct (Rgtb (b i j) 0) eqn:E; [reflexivity|].
  apply Rgtb_false in E. apply Nat.ltb_lt in Hi. apply Nat.ltb_lt in Hj.
  specialize (Hb i j Hi Hj). lra.
Qed.

Lemma np_sum_scale (sh : Shape) (k : R) (g : Grid) :
  np_sum sh (scale k g) = k * np_sum sh g.
Proof.
  unfold np_sum, scale. rewrite Rmult_comm, <- sum_upto_scal.
  apply sum_upto_ext; intros i _. rewrite <- sum_upto_scal.
  apply sum_upto_ext; intros j _. ring.
Qed.

Lemma mgrid_inside (lo hi step : R) (i : nat) :
  0 < step -> (i < mgrid_len lo hi step)%nat -> lo + INR i * step < hi.
Proof.
  intros Hs Hi. unfold mgrid_len in Hi.
  set (q := (hi - lo) / step) in *.
  assert (Hz : (Z.of_nat i < Zceil q)%Z) by lia.
  pose proof (Zceil_bound q) as [Hq _].
  assert (Hr : IZR (Z.of_nat i) <= IZR (Zceil q) - 1).
  { rewrite <- minus_IZR. apply IZR_le. lia. }
  rewrite INR_IZR_INZ.
  assert (E : q * step = hi - lo) by (unfold q; field; lra).
  nra.
Qed.

(** After construction the coordinate arrays match the parameters. *)
Lemma init_grid_matches (srv : ParamServer) (t0 : R) :
  valid_axes (read_params srv) -> grid_matches (init srv t0).
Proof.
  intros (_ & _ & Hd & Hp). unfold grid_matches.
  change (params (init srv t0)) with (read_params srv).
  repeat split; try reflexivity.
  - intros i Hi. apply mgrid_inside; assumption.
  - intros j Hj. apply mgrid_inside; assumption.
Qed.

(** With no velocity [propagateBelief] smooths and normalises the remapped
    grid, whatever the clock reads. *)
Lemma propagateBelief_stationary_eq (self : State) (now : R) :
  grid_matches self -> 0 < delta_d (params self) -> 0 < delta_phi (params self) ->
  v_current self = 0 -> w_current self = 0 ->
  let sh := shape self in
  let s := gaussian_filter (scale 100 (clip sh (beliefRV self)))
             (cov_mask (params self)) sh in
  propagateBelief self now
  = Ok (if Reqb (np_sum sh s) 0 then self
        else set_beliefRV self (div_by s (np_sum sh s))).
Proof.
  intros G Hdd Hdp Hv Hw sh s.
  unfold propagateBelief. rewrite remap_stationary by assumption. cbn [bind].
  fold sh. fold s. destruct (Reqb (np_sum sh s) 0); reflexivity.
Qed.

(** Without smoothing the result is the belief divided by its total. *)
Lemma propagateBelief_unsmoothed (self : State) (now : R) :
  grid_matches self -> 0 < delta_d (params self) -> 0 < delta_phi (params self) ->
  v_current self = 0 -> w_current self = 0 ->
  let sh := shape self in
  (forall g, gaussian_filter g (0, 0) sh = g) ->
  cov_mask (params self) = (0, 0) ->
  nonneg sh (beliefRV self) ->
  exists self', propagateBelief self now = Ok self' /\
    (np_sum sh (beliefRV self) = 0 -> self' = self) /\
    (np_sum sh (beliefRV self) <> 0 ->
     same_cells sh (beliefRV self') (normalize sh (beliefRV self))) /\
    (np_sum sh (beliefRV self) = 1 ->
     same_cells sh (beliefRV self') (beliefRV self)).
Proof.
  intros G Hdd Hdp Hv Hw sh Hf Hc Hb.
  pose proof (propagateBelief_stationary_eq self now G Hdd Hdp Hv Hw) as P.
  cbn zeta in P. fold sh in P.
  set (s := gaussian_filter (scale 100 (clip sh (beliefRV self)))
              (cov_mask (params self)) sh) in *.
  eexists. split; [exact P|].
  assert (Es : s = scale 100 (clip sh (beliefRV self))) by (unfold s; rewrite Hc; apply Hf).
  assert (Sum : np_sum sh s = 100 * np_sum sh (beliefRV self)).
  { rewrite Es, np_sum_scale. f_equal. apply np_sum_ext, clip_nonneg, Hb. }
  assert (Cells : np_sum sh (beliefRV self) <> 0 ->
                  same_cells sh (div_by s (np_sum sh s)) (normalize sh (beliefRV self))).
  { intros Hn i j Hi Hj. unfold div_by, normalize. rewrite Sum, Es. unfold scale.
    rewrite (clip_nonneg sh _ Hb i j Hi Hj). fold sh. field. exact Hn. }
  split; [|split].
  - intros Hz. replace (Reqb (np_sum sh s) 0) with true; [reflexivity|].
    symmetry. apply Reqb_true. rewrite Sum, Hz. ring.
  - intros Hn. replace (Reqb (np_sum sh s) 0) with false
      by (symmetry; apply Reqb_false; rewrite Sum; lra).
    exact (Cells Hn).
  - intros H1. replace (Reqb (np_sum sh s) 0) with false
      by (symmetry; apply Reqb_false; rewrite Sum; lra).
    intros i j Hi Hj. cbn [beliefRV set_beliefRV].
    rewrite (Cells ltac:(lra) i j Hi Hj). unfold normalize. fold sh. rewrite H1. field.
Qed.

Lemma clip_positive_part (sh : Shape) (b : Grid) :
  same_cells sh (clip sh b) (positive_part b).
Proof.
  intros i j Hi Hj. unfold clip, positive_part.
  apply Nat.ltb_lt in Hi. apply Nat.ltb_lt in Hj. rewrite Hi, Hj. reflexivity.
Qed.

Lemma nonneg_clip (sh : Shape) (b : Grid) : nonneg sh (clip sh b).
Proof.
  intros i j _ _. unfold clip.
  destruct ((i <? fst sh)%nat && (j <? snd sh)%nat); cbn [andb]; [|lra].
  destruct (Rgtb (b i j) 0) eqn:E; [|lra].
  apply Rgtb_true in E. lra.
Qed.

(** C7 (amended): with [v = 0] and [omega = 0], for every clock reading,
    [propagateBelief] raises nothing and drops no mass: the remapped grid
    is non-negative and weighs what the positive cells of the belief weigh
    (which cell a mass is re-binned into is left out).  The belief is kept
    when the smoothed grid has no mass; otherwise the stored belief is the
    smoothed grid divided by its total and sums to 1.  Propagation is not
    the identity on the belief: if the filter leaves its input alone at
    sigma (0, 0) and both sigmas are 0, a non-negative belief with mass
    sums to 1 afterwards, and so it is changed when it did not sum to 1
    before. *)
Theorem propagateBelief_stationary (self : State) (now : R) :
  grid_matches self -> 0 < delta_d (params self) -> 0 < delta_phi (params self) ->
  v_current self = 0 -> w_current self = 0 ->
  let sh := shape self in
  exists p self',
    remap self (now - t_last_update self) = Ok p /\
    nonneg sh p /\
    np_sum sh p = np_sum sh (positive_part (beliefRV self)) /\
    propagateBelief self now = Ok self' /\
    let s := gaussian_filter (scale 100 p) (cov_mask (params self)) sh in
    (np_sum sh s = 0 -> self' = self) /\
    (np_sum sh s <> 0 ->
     beliefRV self' = div_by s (np_sum sh s) /\ np_sum sh (beliefRV self') = 1) /\
    ((forall g, gaussian_filter g (0, 0) sh = g) ->
     cov_mask (params self) = (0, 0) ->
     nonneg sh (beliefRV self) -> np_sum sh (beliefRV self) <> 0 ->
     np_sum sh (beliefRV self') = 1 /\
     (np_sum sh (beliefRV self) <> 1 ->
      ~ same_cells sh (beliefRV self') (beliefRV self))).
Proof.
  intros G Hdd Hdp Hv Hw sh.
  pose proof (remap_stationary self (now - t_last_update self) G Hdd Hdp Hv Hw) as Hr.
  fold sh in Hr.
  set (p := clip sh (beliefRV self)) in *.
  set (s := gaussian_filter (scale 100 p) (cov_mask (params self)) sh).
  assert (Hm : np_sum sh p = np_sum sh (positive_part (beliefRV self)))
    by apply np_sum_ext, clip_positive_part.
  assert (Hnorm : np_sum sh s <> 0 -> np_sum sh (div_by s (np_sum sh s)) = 1)
    by apply np_sum_normalised.
  exists p.
  exists (if Reqb (np_sum sh s) 0 then self else set_beliefRV self (div_by s (np_sum sh s))).
  split; [exact Hr|]. split; [apply nonneg_clip|]. split; [exact Hm|].
  split; [unfold propagateBelief; rewrite Hr; cbn [bind]; fold sh; fold s;
          destruct (Reqb (np_sum sh s) 0); reflexivity|].
  cbn zeta. fold s.
  split; [|split].
  - intros Hz. apply Reqb_true in Hz. rewrite Hz. reflexivity.
  - intros Hz. pose proof (Hnorm Hz) as H1. apply Reqb_false in Hz. rewrite Hz.
    split; [reflexivity|exact H1].
  - intros Hf Hc Hb Hn.
    assert (Es : s = scale 100 p) by (unfold s; rewrite Hc; apply Hf).
    assert (Sum : np_sum sh s = 100 * np_sum sh (beliefRV self)).
    { rewrite Es, np_sum_scale. f_equal. apply np_sum_ext, clip_nonneg, Hb. }
    assert (Hz : np_sum sh s <> 0) by (rewrite Sum; lra).
    pose proof (Hnorm Hz) as H1. apply Reqb_false in Hz. rewrite Hz.
    split; [exact H1|].
    intros Hne E. apply np_sum_ext in E. cbn [beliefRV set_beliefRV] in E.
    rewrite H1 in E. apply Hne. symmetry. exact E.
Qed.

(** The belief [__init__] leaves with propagation on and no smoothing is
    rescaled by the first propagation, although nothing moved. *)
Lemma first_propagation_rescales (now : R) :
  (forall g sh, gaussian_filter g (0, 0) sh = g) ->
  let self := init unsmoothed 0 in
  exists self', propagateBelief self now = Ok self' /\
    beliefRV self' 35%nat 79%nat <> beliefRV self 35%nat 79%nat.
Proof.
  intros Hf self.
  assert (V : valid_axes (read_params unsmoothed)).
  { unfold valid_axes, get_param; cbn. pose proof PI_RGT_0. repeat split; lra. }
  pose proof (init_grid_matches unsmoothed 0 V) as G. fold self in G.
  assert (Hs : shape self = (60, 158)%nat) by (apply shape_default_axes; reflexivity).
  assert (M : 1 < beliefRV self 35%nat 79%nat /\ 1 < np_sum (shape self) (beliefRV self)).
  { unfold self, init.
    match goal with |- context [initializeBelief ?s] => set (s0 := s) end.
    change (shape (initializeBelief s0)) with (shape s0).
    assert (Hs0 : shape s0 = (60, 158)%nat) by exact Hs.
    destruct default_cell_35_79 as [Hd Hp].
    apply initial_mass_above_1; try reflexivity; try (rewrite Hs0; cbn; lia).
    - exact Hd.
    - exact Hp. }
  destruct M as [Mc Ms].
  destruct (propagateBelief_unsmoothed self now G) as (self' & P & _ & Hn & _);
    try reflexivity.
  - apply V.
  - apply V.
  - intros g. apply Hf.
  - apply nonneg_initial_belief.
  - exists self'. split; [exact P|].
    rewrite (Hn ltac:(lra) 35%nat 79%nat) by (rewrite Hs; cbn; lia).
    unfold normalize. intros E.
    set (b := beliefRV self 35%nat 79%nat) in *.
    set (t := np_sum (shape self) (beliefRV self)) in *.
    assert (b = b * t) by (rewrite <- E at 2; field; lra).
    nra.
Qed.

(** * Further properties of the code *)

(** ** Bins and subscripts *)



(** The values that pass the bounds test of lines 260 and 349. *)
Lemma bounds_test_false (v_d v_phi : R) (p : Params) :
  Rgtb v_d (d_max p) || Rltb v_d (d_min p)
  || Rltb v_phi (phi_min p) || Rgtb v_phi (phi_max p) = false ->
  d_min p <= v_d <= d_max p /\ phi_min p <= v_phi <= phi_max p.
Proof.
  rewrite !orb_false_iff. intros [[[A B] C] D].
  apply Rgtb_false in A, D. apply Rltb_false in B, C. lra.
Qed.

(** ** Ballots *)

Lemma accumulate_cast (sh : Shape) (g : Grid) (i j : option Z) (w : R) :
  accumulate sh g i j w = do b <- cast_at sh i j w; Ok (apply_ballot b g).
Proof.
  unfold accumulate, cast_at.
  destruct (subscript (fst sh) i); cbn [bind]; [|reflexivity].
  destruct (subscript (snd sh) j); reflexivity.
Qed.

Lemma vote_segment_ballot (self : State) (segment : Segment) (ml : Grid) :
  vote_segment self segment ml
  = do b <- ballot_of self segment; Ok (apply_ballot b ml).
Proof.
  unfold vote_segment, ballot_of.
  destruct (negb _); [reflexivity|].
  destruct (Rltb _ 0 || Rltb _ 0); [reflexivity|].
  destruct (generateVote _ _) as [d_i phi_i l_i|]; [|reflexivity].
  destruct (_ || _ || _ || _); [reflexivity|].
  destruct (_ && _); [reflexivity|].
  destruct (use_distance_weighting _).
  - destruct (Rltb _ 0); [reflexivity|]. apply accumulate_cast.
  - apply accumulate_cast.
Qed.

Lemma for_each_ballots (self : State) (segs : list Segment) (g : Grid) :
  for_each segs (vote_segment self) g
  = do bs <- ballots self segs; Ok (tally bs g).
Proof.
  revert g. induction segs as [|s rest IH]; intros g; [reflexivity|].
  cbn [for_each ballots]. rewrite vote_segment_ballot.
  destruct (ballot_of self s) as [b|e]; cbn [bind]; [|reflexivity].
  rewrite IH. destruct (ballots self rest); reflexivity.
Qed.

Lemma likelihood_ballots (self : State) (segs : list Segment) :
  likelihood self segs = do bs <- ballots self segs; Ok (tally bs zeros).
Proof. apply for_each_ballots. Qed.

(** A ballot that is cast names a cell inside the shape and a
    non-negative weight, positive when distance weighting is off. *)
Lemma ballot_of_cast (self : State) (segment : Segment) (a b : nat) (w : R) :
  ballot_of self segment = Ok (Cast a b w) ->
  (a < fst (shape self))%nat /\ (b < snd (shape self))%nat /\ 0 <= w /\
  (use_distance_weighting (params self) = false -> 0 < w).
Proof.
  unfold ballot_of.
  destruct (negb _); [discriminate|].
  destruct (Rltb _ 0 || Rltb _ 0); [discriminate|].
  destruct (generateVote _ _) as [d_i phi_i l_i|] eqn:Ev; [|discriminate].
  apply generateVote_l_pos in Ev.
  destruct (_ || _ || _ || _); [discriminate|].
  destruct (_ && _); [discriminate|].
  assert (C : forall w0, cast_at (shape self) (bin d_i (d_min (params self)) (delta_d (params self)))
                 (bin phi_i (phi_min (params self)) (delta_phi (params self))) w0
               = Ok (Cast a b w) ->
               (a < fst (shape self))%nat /\ (b < snd (shape self))%nat /\ w0 = w).
  { intros w0. unfold cast_at.
    destruct (subscript (fst _) _) as [a0|] eqn:Ea; cbn [bind]; [|discriminate].
    destruct (subscript (snd _) _) as [b0|] eqn:Eb; cbn [bind]; [|discriminate].
    intros [= <- <- <-]. eauto using subscript_ok. }
  destruct (use_distance_weighting _).
  - destruct (Rltb _ 0) eqn:Ew; [discriminate|]. apply Rltb_false in Ew.
    intros H. apply C in H as (Ha & Hb & <-). repeat split; try assumption. discriminate.
  - intros H. apply C in H as (Ha & Hb & <-).
    assert (0 < 1 / l_i) by (apply Rdiv_lt_0_compat; lra).
    repeat split; try assumption; lra.
Qed.

(** ** Exceptions of the segment loop *)



(** ** Segments parallel to the x axis *)



(** ** The maximum of the belief *)

Lemma argmax_upto_spec (n : nat) (f : nat -> R) :
  (0 < n)%nat ->
  let m := argmax_upto n f in
  (m < n)%nat /\
  (forall k, (k < n)%nat -> f k <= f m) /\
  (forall k, (k < m)%nat -> f k < f m).
Proof.
  induction n as [|n IH]; intros Hn; [lia|].
  destruct n as [|n'].
  - cbn. split; [lia|]. split; [|intros; lia].
    intros k Hk. replace k with O by lia. lra.
  - specialize (IH ltac:(lia)). cbn zeta in IH.
    set (m0 := argmax_upto (S n') f) in *.
    destruct IH as (L & M & F).
    change (argmax_upto (S (S n')) f)
      with (if Rltb (f m0) (f (S n')) then S n' else m0).
    destruct (Rltb (f m0) (f (S n'))) eqn:E.
    + apply Rltb_true in E. cbn zeta. split; [lia|]. split.
      * intros k Hk. destruct (Nat.eq_dec k (S n')) as [->|]; [lra|].
        specialize (M k ltac:(lia)). lra.
      * intros k Hk. specialize (M k Hk). lra.
    + apply Rltb_false in E. cbn zeta. split; [lia|]. split.
      * intros k Hk. destruct (Nat.eq_dec k (S n')) as [->|]; [lra|].
        apply M. lia.
      * exact F.
Qed.

Lemma flat_cell (sh : Shape) (g : Grid) (a b : nat) :
  (b < snd sh)%nat -> flat sh g (a * snd sh + b) = g a b.
Proof.
  intros Hb. unfold flat.
  rewrite Nat.div_add_l, Nat.div_small, Nat.add_0_r by lia.
  rewrite Nat.add_comm, Nat.Div0.mod_add, Nat.mod_small by lia. reflexivity.
Qed.

(** [argmax] names a cell inside a non-empty shape that no cell exceeds
    and that every cell before it, row by row, stays strictly below. *)
Lemma argmax_spec (sh : Shape) (g : Grid) :
  (0 < fst sh)%nat -> (0 < snd sh)%nat ->
  let '(i, j) := argmax sh g in
  (i < fst sh)%nat /\ (j < snd sh)%nat /\
  (forall a b, (a < fst sh)%nat -> (b < snd sh)%nat -> g a b <= g i j) /\
  (forall a b, (b < snd sh)%nat -> (a < i \/ (a = i /\ b < j))%nat -> g a b < g i j).
Proof.
  intros H1 H2. unfold argmax.
  set (k := argmax_upto (fst sh * snd sh) (flat sh g)).
  destruct (argmax_upto_spec (fst sh * snd sh) (flat sh g) ltac:(nia)) as (L & M & F).
  fold k in L, M, F.
  assert (Ek : k = (k / snd sh * snd sh + k mod snd sh)%nat).
  { rewrite (Nat.div_mod_eq k (snd sh)) at 1. lia. }
  assert (Hj : (k mod snd sh < snd sh)%nat) by (apply Nat.mod_upper_bound; lia).
  assert (Hi : (k / snd sh < fst sh)%nat) by (apply Nat.Div0.div_lt_upper_bound; lia).
  assert (Eg : flat sh g k = g (k / snd sh)%nat (k mod snd sh)%nat) by reflexivity.
  split; [exact Hi|]. split; [exact Hj|]. split.
  - intros a b Ha Hb. rewrite <- Eg, <- (flat_cell sh g a b Hb). apply M. nia.
  - intros a b Hb Hab. rewrite <- Eg, <- (flat_cell sh g a b Hb). apply F. nia.
Qed.

Lemma np_sum_empty (sh : Shape) (g : Grid) :
  (fst sh = 0 \/ snd sh = 0)%nat -> np_sum sh g = 0.
Proof.
  unfold np_sum. intros [-> | ->]; [reflexivity|].
  cbn [sum_upto]. apply sum_upto_0.
Qed.

Lemma np_norm_nonzero_shape (sh : Shape) (g : Grid) :
  np_norm sh g <> 0 -> (0 < fst sh)%nat /\ (0 < snd sh)%nat.
Proof.
  intros H.
  destruct (Nat.eq_dec (fst sh) 0) as [E|]; [|destruct (Nat.eq_dec (snd sh) 0) as [E|]; [|lia]];
    exfalso; apply H; unfold np_norm; rewrite np_sum_empty by auto; apply sqrt_0.
Qed.

(** X3: the pose a frame publishes is the lower edge of a cell inside the
    shape; that cell holds the largest belief, and it is the first such
    cell row by row.  The published pose is the stored one and carries
    the stamp of the frame. *)
Theorem published_pose_is_first_maximum (self self' : State) (msg : SegmentList)
    (t_prop t_upd : R) (pub : Published) :
  processSegments self msg t_prop t_upd = Ok (self', Some pub) ->
  let p := params self' in
  let b := beliefRV self' in
  exists i j,
    (i < fst (shape self'))%nat /\ (j < snd (shape self'))%nat /\
    pose_d (lane_pose pub) = d_min p + INR i * delta_d p /\
    pose_phi (lane_pose pub) = phi_min p + INR j * delta_phi p /\
    (forall a c, (a < fst (shape self'))%nat -> (c < snd (shape self'))%nat ->
                 b a c <= b i j) /\
    (forall a c, (c < snd (shape self'))%nat -> (a < i \/ (a = i /\ c < j))%nat ->
                 b a c < b i j) /\
    lanePose self' = lane_pose pub /\
    pose_stamp (lane_pose pub) = stamp msg.
Proof.
  intros H p b.
  apply processSegments_published in H as (_ & self1 & raw & _ & _ & Hz & Hs & Hpub).
  apply np_norm_nonzero_shape in Hz as [N1 N2].
  set (ml := div_by raw (np_sum (shape self1) raw)) in *.
  set (self2 := if use_propagation (params self1)
                then updateBelief self1 ml else set_beliefRV self1 ml) in *.
  assert (Hsh : shape self2 = shape self1) by (unfold self2; destruct (use_propagation _); reflexivity).
  pose proof (argmax_spec (shape self2) (beliefRV self2)) as A.
  rewrite Hsh in A at 1 2. specialize (A N1 N2).
  destruct (argmax (shape self2) (beliefRV self2)) as [i j] eqn:Ea.
  destruct A as (Hi & Hj & M & F).
  subst self' pub. unfold p, b.
  cbn [lane_pose shape params beliefRV lanePose set_lanePose].
  exists i, j. unfold extract. rewrite Ea. cbn [pose_d pose_phi pose_stamp fst snd].
  repeat split; assumption.
Qed.

(** ** The order of the segments *)

Lemma add_at_comm (g : Grid) (a b c e : nat) (v w : R) :
  add_at (add_at g a b v) c e w = add_at (add_at g c e w) a b v.
Proof.
  apply functional_extensionality; intros i; apply functional_extensionality; intros j.
  unfold add_at.
  destruct (Nat.eqb i a && Nat.eqb j b); destruct (Nat.eqb i c && Nat.eqb j e); ring.
Qed.

Lemma apply_ballot_comm (b1 b2 : ballot) (g : Grid) :
  apply_ballot b1 (apply_ballot b2 g) = apply_ballot b2 (apply_ballot b1 g).
Proof. destruct b1, b2; cbn; try reflexivity. apply add_at_comm. Qed.

Lemma tally_perm (bs bs' : list ballot) :
  Permutation bs bs' -> forall g, tally bs g = tally bs' g.
Proof.
  unfold tally. induction 1 as [|b l l' _ IH|b1 b2 l|l1 l2 l3 _ IH1 _ IH2]; intros g; cbn.
  - reflexivity.
  - apply IH.
  - rewrite apply_ballot_comm. reflexivity.
  - rewrite IH1. apply IH2.
Qed.

Lemma ballots_perm (self : State) (l l' : list Segment) :
  Permutation l l' ->
  forall bs, ballots self l = Ok bs ->
  exists bs', ballots self l' = Ok bs' /\ Permutation bs bs'.
Proof.
  induction 1 as [|s l l' _ IH|s1 s2 l|l1 l2 l3 _ IH1 _ IH2]; intros bs; cbn [ballots].
  - intros [= <-]. exists []. split; [reflexivity|constructor].
  - destruct (ballot_of self s) as [b|]; cbn [bind]; [|discriminate].
    destruct (ballots self l) as [bl|]; cbn [bind]; [|discriminate].
    intros [= <-]. destruct (IH bl eq_refl) as (bl' & -> & P).
    exists (b :: bl'). split; [reflexivity|]. now constructor.
  - destruct (ballot_of self s2) as [b2|]; cbn [bind]; [|discriminate].
    destruct (ballot_of self s1) as [b1|]; cbn [bind]; [|discriminate].
    destruct (ballots self l) as [bl|]; cbn [bind]; [|discriminate].
    intros [= <-]. exists (b1 :: b2 :: bl). split; [reflexivity|]. constructor.
  - intros H1. destruct (IH1 bs H1) as (bs2 & H2 & P2).
    destruct (IH2 bs2 H2) as (bs3 & H3 & P3).
    exists bs3. split; [exact H3|]. eapply Permutation_trans; eassumption.
Qed.

Lemma likelihood_perm (self : State) (l l' : list Segment) (g : Grid) :
  Permutation l l' -> likelihood self l = Ok g -> likelihood self l' = Ok g.
Proof.
  intros P. rewrite !likelihood_ballots.
  destruct (ballots self l) as [bs|] eqn:E; cbn [bind]; [|discriminate].
  intros [= <-]. destruct (ballots_perm self l l' P bs E) as (bs' & -> & Pb).
  cbn [bind]. f_equal. symmetry. apply tally_perm. exact Pb.
Qed.

Lemma likelihood_perm_raises (self : State) (l l' : list Segment) (e : exn) :
  Permutation l l' -> likelihood self l = Raise e ->
  exists e', likelihood self l' = Raise e'.
Proof.
  intros P H. destruct (likelihood self l') as [g|e'] eqn:E; [|eauto].
  apply (likelihood_perm self l' l g (Permutation_sym P)) in E. congruence.
Qed.

(** X4: in exact arithmetic the outcome of a frame does not depend on
    the order of its segments: a reordered frame leaves the same node and
    publishes the same pose, and it raises if the frame raised (possibly
    another exception, if two segments fail). *)
Theorem frame_order_is_irrelevant (self : State) (msg msg' : SegmentList)
    (t_prop t_upd : R) :
  Permutation (segments msg) (segments msg') -> stamp msg = stamp msg' ->
  (forall r, processSegments self msg t_prop t_upd = Ok r ->
             processSegments self msg' t_prop t_upd = Ok r) /\
  (forall e, processSegments self msg t_prop t_upd = Raise e ->
             exists e', processSegments self msg' t_prop t_upd = Raise e').
Proof.
  intros P St. unfold processSegments.
  destruct (negb (active self)); [split; [auto|discriminate]|].
  destruct (propagation_step self t_prop t_upd) as [self1|e1]; cbn [bind];
    [|split; [discriminate|eauto]].
  destruct (likelihood self1 (segments msg)) as [raw|e2] eqn:E; cbn [bind].
  - rewrite (likelihood_perm self1 _ _ raw P E). cbn [bind]. split.
    + intros r. unfold extract. rewrite St, (Permutation_length P). auto.
    + destruct (Reqb _ 0); discriminate.
  - split; [discriminate|]. intros e _.
    destruct (likelihood_perm_raises self1 _ _ e2 P E) as (e' & ->). cbn [bind]. eauto.
Qed.

(** ** Which frames publish *)

Lemma np_index_nonneg (n : nat) (z : Z) (a : nat) :
  (0 <= z)%Z -> np_index n z = Ok a -> a = Z.to_nat z /\ (z < Z.of_nat n)%Z.
Proof.
  intros Hz. unfold np_index.
  destruct ((0 <=? z)%Z && (z <? Z.of_nat n)%Z) eqn:E.
  - intros [= <-]. apply andb_prop in E as [_ E]. apply Z.ltb_lt in E. auto.
  - replace ((- Z.of_nat n <=? z)%Z && (z <? 0)%Z) with false; [discriminate|].
    symmetry. apply andb_false_intro2, Z.ltb_ge. exact Hz.
Qed.

(** The subscript of a value not below the lower bound is the cell the
    value lies in. *)
Lemma subscript_bin_cell (n : nat) (v lo delta : R) (a : nat) :
  0 < delta -> lo <= v -> subscript n (bin v lo delta) = Ok a ->
  lo + INR a * delta <= v < lo + (INR a + 1) * delta.
Proof.
  intros Hd Hlo. unfold bin.
  replace (Reqb delta 0) with false by (symmetry; apply Reqb_false; lra).
  cbn [subscript]. set (q := (v - lo) / delta).
  assert (Eq : q * delta = v - lo) by (unfold q; field; lra).
  assert (Hq : 0 <= q) by (apply Rmult_le_reg_r with delta; [exact Hd|]; lra).
  assert (Hz : (0 <= Zfloor q)%Z) by (apply Zfloor_lub; exact Hq).
  intros H. apply np_index_nonneg in H as [-> _]; [|exact Hz].
  pose proof (Zfloor_bound q) as [F1 F2].
  rewrite INR_IZR_INZ, Z2Nat.id by exact Hz. nra.
Qed.

(** A ballot is cast exactly by the segments that vote (distance
    weighting off), and it goes to the cell its vote lies in. *)
Lemma ballot_of_votes (self : State) (s : Segment) (b : ballot) :
  use_distance_weighting (params self) = false ->
  ballot_of self s = Ok b ->
  (is_cast b = true <-> votes (params self) s).
Proof.
  intros Hw. unfold ballot_of, votes. rewrite Hw.
  destruct (color s) eqn:Ec; cbn [Color_eqb negb].
  1,3: intros [= <-]; split; [discriminate|intros (C & _); discriminate].
  destruct (Rltb _ 0 || Rltb _ 0) eqn:Ex.
  { intros [= <-]. split; [discriminate|]. intros (_ & X1 & X2 & _).
    apply orb_true_iff in Ex as [E|E]; apply Rltb_true in E; lra. }
  apply orb_false_iff in Ex as [X1 X2]. apply Rltb_false in X1, X2.
  destruct (generateVote (params self) s) as [d_i phi_i l_i|] eqn:Ev; [|discriminate].
  destruct (_ || _ || _ || _) eqn:Eb.
  { intros [= <-]. split; [discriminate|].
    intros (_ & _ & _ & d0 & p0 & l0 & [= <- <- <-] & Bd & Bp & _).
    rewrite !orb_true_iff in Eb.
    destruct Eb as [[[E|E]|E]|E]; apply Rltb_true in E; lra. }
  apply bounds_test_false in Eb as [Bd Bp].
  destruct (use_max_segment_dist (params self)) eqn:Em; cbn [andb].
  - destruct (Rgtb l_i (max_segment_dist (params self))) eqn:El.
    + intros [= <-]. split; [discriminate|].
      intros (_ & _ & _ & d0 & p0 & l0 & [= <- <- <-] & _ & _ & Hl).
      apply Rgtb_true in El. specialize (Hl eq_refl). lra.
    + apply Rgtb_false in El. unfold cast_at.
      destruct (subscript _ _); cbn [bind]; [|discriminate].
      destruct (subscript _ _); cbn [bind]; [|discriminate].
      intros [= <-]. split; [|reflexivity]. intros _.
      repeat split; try assumption. exists d_i, phi_i, l_i. repeat split; try tauto; lra.
  - unfold cast_at.
    destruct (subscript _ _); cbn [bind]; [|discriminate].
    destruct (subscript _ _); cbn [bind]; [|discriminate].
    intros [= <-]. split; [|reflexivity]. intros _.
    repeat split; try assumption. exists d_i, phi_i, l_i.
    repeat split; try tauto; try lra.
Qed.

Lemma ballot_of_cast_cell (self : State) (s : Segment) (a c : nat) (w : R) :
  let p := params self in
  0 < delta_d p -> 0 < delta_phi p ->
  ballot_of self s = Ok (Cast a c w) ->
  exists d_i phi_i l_i,
    generateVote p s = Vote d_i phi_i l_i /\
    d_min p + INR a * delta_d p <= d_i < d_min p + (INR a + 1) * delta_d p /\
    phi_min p + INR c * delta_phi p <= phi_i < phi_min p + (INR c + 1) * delta_phi p.
Proof.
  intros p Hd Hp. unfold ballot_of. fold p.
  destruct (negb _); [discriminate|].
  destruct (Rltb _ 0 || Rltb _ 0); [discriminate|].
  destruct (generateVote p s) as [d_i phi_i l_i|]; [|discriminate].
  destruct (_ || _ || _ || _) eqn:Eb; [discriminate|].
  apply bounds_test_false in Eb as [Bd Bp].
  destruct (_ && _); [discriminate|].
  assert (C : forall w0, cast_at (shape self) (bin d_i (d_min p) (delta_d p))
                 (bin phi_i (phi_min p) (delta_phi p)) w0 = Ok (Cast a c w) ->
               d_min p + INR a * delta_d p <= d_i < d_min p + (INR a + 1) * delta_d p /\
               phi_min p + INR c * delta_phi p <= phi_i
                 < phi_min p + (INR c + 1) * delta_phi p).
  { intros w0. unfold cast_at.
    destruct (subscript (fst _) _) as [a0|] eqn:Ea; cbn [bind]; [|discriminate].
    destruct (subscript (snd _) _) as [c0|] eqn:Ecc; cbn [bind]; [|discriminate].
    intros [= <- <- _].
    split; eapply subscript_bin_cell; try eassumption; lra. }
  intros H. exists d_i, phi_i, l_i. split; [reflexivity|].
  destruct (use_distance_weighting p).
  - destruct (Rltb _ 0); [discriminate|]. eapply C; eassumption.
  - eapply C; eassumption.
Qed.

Lemma np_sum_apply_ballot (self : State) (s : Segment) (b : ballot) (g : Grid) :
  ballot_of self s = Ok b ->
  np_sum (shape self) (apply_ballot b g)
  = np_sum (shape self) g + match b with Abstain => 0 | Cast _ _ w => w end.
Proof.
  destruct b as [|a c w]; cbn [apply_ballot]; intros H; [lra|].
  apply ballot_of_cast in H as (Ha & Hc & _). apply np_sum_add_at; assumption.
Qed.

(** With distance weighting off the likelihood has mass exactly when some
    segment of the frame votes. *)
Lemma likelihood_mass_iff_votes (self : State) (segs : list Segment) (raw : Grid) :
  use_distance_weighting (params self) = false ->
  likelihood self segs = Ok raw ->
  (np_sum (shape self) raw <> 0 <-> exists s, In s segs /\ votes (params self) s).
Proof.
  intros Hw. unfold likelihood.
  assert (G : forall g g', for_each segs (vote_segment self) g = Ok g' ->
              np_sum (shape self) g <= np_sum (shape self) g' /\
              (np_sum (shape self) g < np_sum (shape self) g' <->
               exists s, In s segs /\ votes (params self) s)).
  { induction segs as [|s rest IH]; intros g g'; cbn [for_each].
    - intros [= <-]. split; [lra|]. split; [lra|]. intros (s & [] & _).
    - rewrite vote_segment_ballot.
      destruct (ballot_of self s) as [b|] eqn:Eb; cbn [bind]; [|discriminate].
      intros H. apply IH in H as [Hle Hiff].
      pose proof (np_sum_apply_ballot self s b g Eb) as Es.
      pose proof (ballot_of_votes self s b Hw Eb) as Hv.
      destruct b as [|a c w]; cbn [is_cast] in Hv.
      + split; [lra|]. rewrite Es, Rplus_0_r in Hiff. rewrite Hiff. split.
        * intros (s' & Hin & V). exists s'. split; [now right|exact V].
        * intros (s' & [<- | Hin] & V); [apply Hv in V; discriminate|eauto].
      + apply ballot_of_cast in Eb as (_ & _ & _ & Hpos). specialize (Hpos Hw).
        split; [lra|]. split; [|lra].
        intros _. exists s. split; [now left|]. apply Hv. reflexivity. }
  intros H. apply G in H as [Hle Hiff]. rewrite np_sum_zeros in *.
  rewrite <- Hiff. split; lra.
Qed.

Lemma propagation_step_keeps (self self1 : State) (t_prop t_upd : R) :
  propagation_step self t_prop t_upd = Ok self1 ->
  params self1 = params self /\ shape self1 = shape self /\
  dwa self1 = dwa self /\ dwb self1 = dwb self /\ dwc self1 = dwc self /\
  d self1 = d self /\ phi self1 = phi self /\ active self1 = active self /\
  v_current self1 = v_current self /\ w_current self1 = w_current self.
Proof.
  unfold propagation_step.
  destruct (use_propagation (params self)); [|intros [= <-]; repeat split].
  destruct (propagateBelief self t_prop) as [s|] eqn:E; cbn [bind]; [|discriminate].
  intros [= <-].
  apply propagateBelief_cases in E as (p & _ & [[_ ->] | [_ ->]]); repeat split.
Qed.

Lemma likelihood_congr (self self1 : State) (segs : list Segment) :
  params self1 = params self -> shape self1 = shape self ->
  dwa self1 = dwa self -> dwb self1 = dwb self -> dwc self1 = dwc self ->
  likelihood self1 segs = likelihood self segs.
Proof.
  intros Hp Hs Ha Hb Hc. unfold likelihood.
  assert (E : vote_segment self1 = vote_segment self).
  { apply functional_extensionality; intros s; apply functional_extensionality; intros g.
    unfold vote_segment. rewrite Hp, Hs, Ha, Hb, Hc. reflexivity. }
  rewrite E. reflexivity.
Qed.

(** X5: with distance weighting off, a frame that ends without an
    exception publishes a pose exactly when the node is active and some
    segment of the frame votes. *)
Theorem frame_publishes_iff_some_vote (self self' : State) (msg : SegmentList)
    (t_prop t_upd : R) (pub : option Published) :
  use_distance_weighting (params self) = false ->
  processSegments self msg t_prop t_upd = Ok (self', pub) ->
  (pub <> None <->
   active self = true /\ exists s, In s (segments msg) /\ votes (params self) s).
Proof.
  intros Hw. unfold processSegments.
  destruct (active self); cbn [negb].
  2: { intros [= _ <-]. split; [congruence|intros [? _]; discriminate]. }
  destruct (propagation_step self t_prop t_upd) as [self1|] eqn:Ep; cbn [bind]; [|discriminate].
  apply propagation_step_keeps in Ep as (Kp & Ks & _).
  destruct (likelihood self1 (segments msg)) as [raw|] eqn:El; cbn [bind]; [|discriminate].
  pose proof (likelihood_nonneg _ _ _ El) as Hn.
  rewrite <- Kp in Hw.
  pose proof (likelihood_mass_iff_votes self1 _ raw Hw El) as M. rewrite Kp in M.
  destruct (Reqb (np_norm (shape self1) raw) 0) eqn:Ez.
  - apply Reqb_true, (np_norm_zero_iff _ _ Hn) in Ez.
    intros [= _ <-]. split; [congruence|]. intros [_ V]. apply M in V. contradiction.
  - apply Reqb_false in Ez. intros [= _ <-]. split; [|discriminate].
    intros _. split; [reflexivity|]. apply M. intros E. apply Ez.
    apply np_norm_zero_iff; assumption.
Qed.

(** ** A frame with one vote *)

Lemma for_each_passed_over (self : State) (l : list Segment) (g : Grid) :
  Forall passed_over l -> for_each l (vote_segment self) g = Ok g.
Proof.
  induction 1 as [|s l Hs _ IH]; cbn [for_each]; [reflexivity|].
  rewrite vote_segment_passed_over by exact Hs. cbn [bind]. exact IH.
Qed.

(** X6: with propagation off, a frame in which one segment votes and the
    others are passed over publishes the lower edge of the cell that
    holds the vote: the vote lies within one resolution above the
    published pose, on both axes. *)
Theorem single_vote_round_trip (self self' : State) (msg : SegmentList)
    (t_prop t_upd : R) (pub : Published) (s : Segment) (before after : list Segment) :
  let p := params self in
  use_propagation p = false -> 0 < delta_d p -> 0 < delta_phi p ->
  segments msg = before ++ s :: after ->
  Forall passed_over before -> Forall passed_over after ->
  processSegments self msg t_prop t_upd = Ok (self', Some pub) ->
  exists d_i phi_i l_i,
    generateVote p s = Vote d_i phi_i l_i /\
    pose_d (lane_pose pub) <= d_i < pose_d (lane_pose pub) + delta_d p /\
    pose_phi (lane_pose pub) <= phi_i < pose_phi (lane_pose pub) + delta_phi p.
Proof.
  intros p Hu Hd Hp Hseg Hb Ha H.
  apply processSegments_published in H as (_ & self1 & raw & Hps & Hl & Hz & _ & Hpub).
  unfold propagation_step in Hps. fold p in Hps. rewrite Hu in Hps. injection Hps as <-.
  fold p in Hpub. rewrite Hu in Hpub.
  pose proof (likelihood_nonneg _ _ _ Hl) as Hn.
  unfold likelihood in Hl. rewrite Hseg, for_each_app in Hl.
  rewrite for_each_passed_over in Hl by exact Hb. cbn [bind for_each] in Hl.
  rewrite vote_segment_ballot in Hl.
  destruct (ballot_of self s) as [[|a c w]|] eqn:Eb; cbn [bind apply_ballot] in Hl;
    try discriminate; rewrite for_each_passed_over in Hl by exact Ha; injection Hl as <-.
  { exfalso. apply Hz, np_norm_zeros. }
  destruct (ballot_of_cast self s a c w Eb) as (La & Lc & Hw & _).
  destruct (ballot_of_cast_cell self s a c w Hd Hp Eb) as (d_i & phi_i & l_i & Ev & Cd & Cp).
  exists d_i, phi_i, l_i. split; [exact Ev|].
  set (raw := add_at zeros a c w) in *.
  assert (Hs : np_sum (shape self) raw = w).
  { unfold raw. rewrite np_sum_add_at, np_sum_zeros by assumption. lra. }
  assert (Hw0 : 0 < w).
  { destruct Hw as [Hw|Hw]; [exact Hw|]. exfalso. apply Hz.
    apply np_norm_zero_iff; [exact Hn|]. rewrite Hs. auto. }
  set (bel := div_by raw (np_sum (shape self) raw)) in *.
  pose proof (argmax_spec (shape self) bel ltac:(lia) ltac:(lia)) as A.
  destruct (argmax (shape self) bel) as [i j] eqn:Ea.
  destruct A as (_ & _ & M & _). specialize (M a c La Lc).
  assert (Ecell : i = a /\ j = c).
  { unfold bel, div_by in M. rewrite Hs in M. unfold raw, add_at, zeros in M.
    rewrite !Nat.eqb_refl in M. cbn [andb] in M.
    replace ((0 + w) / w) with 1 in M by (field; lra).
    destruct (Nat.eqb_spec i a) as [->|]; [destruct (Nat.eqb_spec j c) as [->|]; [auto|]|];
      cbn [andb] in M; unfold Rdiv in M; rewrite Rmult_0_l in M; lra. }
  destruct Ecell as [-> ->].
  subst pub. unfold extract.
  cbn [lane_pose pose_d pose_phi set_beliefRV shape beliefRV params].
  fold bel. rewrite Ea. cbn [fst snd]. unfold p. lra.
Qed.

(** ** Mass under propagation *)

Lemma propagate_cell_ok (self : State) (delta_t : R) (i j : nat) (q q' : Grid) :
  propagate_cell self delta_t i j q = Ok q' ->
  q' = q \/
  exists a c, (a < fst (shape self))%nat /\ (c < snd (shape self))%nat /\
              0 < beliefRV self i j /\ q' = add_at q a c (beliefRV self i j).
Proof.
  unfold propagate_cell.
  destruct (Rgtb (beliefRV self i j) 0) eqn:Eb; [|intros [= <-]; now left].
  apply Rgtb_true in Eb.
  destruct (_ || _ || _ || _); [intros [= <-]; now left|].
  intros H. apply accumulate_ok in H as (a & c & Ha & Hc & _ & _ & ->).
  right. exists a, c. auto.
Qed.

Lemma propagate_cell_mass (self : State) (delta_t : R) (i j : nat) (q q' : Grid) :
  propagate_cell self delta_t i j q = Ok q' -> nonneg (shape self) q ->
  nonneg (shape self) q' /\
  np_sum (shape self) q <= np_sum (shape self) q'
    <= np_sum (shape self) q + positive_part (beliefRV self) i j.
Proof.
  intros H Hq.
  assert (P : 0 <= positive_part (beliefRV self) i j).
  { unfold positive_part. destruct (Rgtb _ 0) eqn:E; [apply Rgtb_true in E|]; lra. }
  apply propagate_cell_ok in H as [-> | (a & c & Ha & Hc & Hb & ->)].
  - split; [exact Hq|]. lra.
  - split; [apply nonneg_add_at; [exact Hq|lra]|].
    rewrite np_sum_add_at by assumption. unfold positive_part.
    replace (Rgtb (beliefRV self i j) 0) with true by (symmetry; apply Rgtb_true; exact Hb).
    lra.
Qed.

Lemma remap_row_mass (self : State) (delta_t : R) (i : nat) :
  forall m q q',
    for_range m (fun j g => propagate_cell self delta_t i j g) q = Ok q' ->
    nonneg (shape self) q ->
    nonneg (shape self) q' /\
    np_sum (shape self) q <= np_sum (shape self) q'
      <= np_sum (shape self) q + sum_upto m (fun j => positive_part (beliefRV self) i j).
Proof.
  induction m as [|m IH]; intros q q'; cbn [for_range sum_upto].
  - intros [= <-] Hq. split; [exact Hq|]. lra.
  - destruct (for_range m _ q) as [q1|] eqn:E; cbn [bind]; [|discriminate].
    intros H Hq. destruct (IH q q1 E Hq) as (N1 & B1).
    destruct (propagate_cell_mass _ _ _ _ _ _ H N1) as (N2 & B2).
    split; [exact N2|]. lra.
Qed.

Lemma remap_mass (self : State) (delta_t : R) (p : Grid) :
  remap self delta_t = Ok p ->
  nonneg (shape self) p /\
  np_sum (shape self) p <= np_sum (shape self) (positive_part (beliefRV self)).
Proof.
  assert (G : forall n p,
    for_range n (fun i q => for_range (snd (shape self))
                   (fun j g => propagate_cell self delta_t i j g) q) zeros = Ok p ->
    nonneg (shape self) p /\
    0 <= np_sum (shape self) p
      <= sum_upto n (fun i => sum_upto (snd (shape self))
                                (fun j => positive_part (beliefRV self) i j))).
  { induction n as [|n IH]; intros p0; cbn [for_range sum_upto].
    - intros [= <-]. split; [apply nonneg_zeros|]. rewrite np_sum_zeros. lra.
    - destruct (for_range n _ zeros) as [q1|] eqn:E; cbn [bind]; [|discriminate].
      intros H. destruct (IH q1 eq_refl) as (N1 & B1).
      destruct (remap_row_mass _ _ _ _ _ _ H N1) as (N2 & B2).
      split; [exact N2|]. lra. }
  intros H. unfold remap in H. apply G in H as (N & B).
  split; [exact N|]. unfold np_sum at 2. lra.
Qed.

Lemma positive_part_nonneg (sh : Shape) (b : Grid) :
  nonneg sh b -> same_cells sh (positive_part b) b.
Proof.
  intros Hb i j Hi Hj. unfold positive_part.
  destruct (Rgtb (b i j) 0) eqn:E; [reflexivity|].
  apply Rgtb_false in E. specialize (Hb i j Hi Hj). lra.
Qed.

(** X7: the grid [propagateBelief] remaps the belief into has no negative
    cell and no more mass than the positive cells of the belief: moving
    cells only drops mass, whatever the velocity and the elapsed time. *)
Theorem propagation_creates_no_mass (self : State) (delta_t : R) (p : Grid) :
  remap self delta_t = Ok p ->
  nonneg (shape self) p /\
  np_sum (shape self) p <= np_sum (shape self) (positive_part (beliefRV self)) /\
  (nonneg (shape self) (beliefRV self) ->
   np_sum (shape self) p <= np_sum (shape self) (beliefRV self)).
Proof.
  intros H. destruct (remap_mass _ _ _ H) as (N & B).
  split; [exact N|]. split; [exact B|].
  intros Hb. rewrite <- (np_sum_ext _ _ _ (positive_part_nonneg _ _ Hb)). exact B.
Qed.

(** ** Exceptions of the propagation *)







(** ** What a frame leaves alone *)

(** X9: a frame changes nothing but the belief, the stored pose and the
    time of the last update: parameters, shape, coordinate arrays,
    weighting coefficients, the switch and the velocity stay, and the
    clock moves (to the reading of line 117) exactly when the node is
    active with propagation on. *)
Theorem frame_changes_only_belief_pose_clock (self self' : State) (msg : SegmentList)
    (t_prop t_upd : R) (pub : option Published) :
  processSegments self msg t_prop t_upd = Ok (self', pub) ->
  params self' = params self /\ shape self' = shape self /\
  d self' = d self /\ phi self' = phi self /\
  dwa self' = dwa self /\ dwb self' = dwb self /\ dwc self' = dwc self /\
  active self' = active self /\
  v_current self' = v_current self /\ w_current self' = w_current self /\
  t_last_update self'
  = (if active self && use_propagation (params self) then t_upd else t_last_update self) /\
  (pub = None -> lanePose self' = lanePose self).
Proof.
  unfold processSegments.
  destruct (active self) eqn:Ea; cbn [negb andb].
  2: { intros [= <- <-]. rewrite Ea. repeat split. }
  destruct (propagation_step self t_prop t_upd) as [self1|] eqn:Ep; cbn [bind]; [|discriminate].
  assert (T : t_last_update self1
              = (if use_propagation (params self) then t_upd else t_last_update self)
              /\ lanePose self1 = lanePose self).
  { unfold propagation_step in Ep.
    destruct (use_propagation (params self)); [|injection Ep as <-; now split].
    destruct (propagateBelief self t_prop) as [s|] eqn:E; cbn [bind] in Ep; [|discriminate].
    injection Ep as <-.
    apply propagateBelief_cases in E as (p & _ & [[_ ->] | [_ ->]]); now split. }
  destruct T as [T L].
  apply propagation_step_keeps in Ep as (K1 & K2 & K3 & K4 & K5 & K6 & K7 & K8 & K9 & K10).
  destruct (likelihood self1 (segments msg)) as [raw|]; cbn [bind]; [|discriminate].
  destruct (Reqb _ 0).
  - intros [= <- <-]. rewrite Ea in K8. repeat split; try assumption. intros _. exact L.
  - intros [= <- <-].
    destruct (use_propagation (params self1));
      cbn; rewrite Ea in K8; repeat split; try assumption; discriminate.
Qed.

(** ** No elapsed time *)

Lemma remap_zero_time (self : State) :
  remap self 0 = remap (set_velocity self 0 0) 0.
Proof.
  unfold remap. cbn [shape set_velocity].
  assert (E : forall i j q, propagate_cell self 0 i j q
                            = propagate_cell (set_velocity self 0 0) 0 i j q).
  { intros i j q. unfold propagate_cell.
    cbn [beliefRV d phi params shape v_current w_current set_velocity].
    replace (v_current self * 0 * sin (phi self i j)) with (0 * 0 * sin (phi self i j)) by ring.
    replace (w_current self * 0) with (0 * 0) by ring. reflexivity. }
  f_equal. apply functional_extensionality; intros i; apply functional_extensionality; intros q.
  f_equal. apply functional_extensionality; intros j; apply functional_extensionality; intros q'.
  apply E.
Qed.

(** X10: when no time has passed since the last update the velocity does
    not matter: the remapped grid and the outcome of [propagateBelief] are
    those of the node at rest.  With coordinate arrays of the current
    parameters and positive resolutions nothing is raised and no mass is
    dropped, and the node is kept as it is or left with a belief that sums
    to 1. *)
Theorem propagation_without_elapsed_time (self : State) (v w : R) :
  grid_matches self -> 0 < delta_d (params self) -> 0 < delta_phi (params self) ->
  let sh := shape self in
  let at_rest := set_velocity self 0 0 in
  let moving := set_velocity self v w in
  remap moving 0 = remap at_rest 0 /\
  exists p s,
    remap at_rest 0 = Ok p /\ nonneg sh p /\
    np_sum sh p = np_sum sh (positive_part (beliefRV self)) /\
    propagateBelief at_rest (t_last_update self) = Ok s /\
    propagateBelief moving (t_last_update self) = Ok (set_velocity s v w) /\
    (s = at_rest \/ np_sum sh (beliefRV s) = 1).
Proof.
  intros G Hd Hp sh at_rest moving.
  assert (E : remap moving 0 = remap at_rest 0) by exact (remap_zero_time moving).
  assert (Hr : remap at_rest 0 = Ok (clip sh (beliefRV self)))
    by (apply (remap_stationary at_rest 0); try assumption; reflexivity).
  split; [exact E|].
  set (p := clip sh (beliefRV self)) in *.
  set (g := gaussian_filter (scale 100 p) (cov_mask (params self)) sh).
  exists p.
  exists (if Reqb (np_sum sh g) 0 then at_rest
          else set_beliefRV at_rest (div_by g (np_sum sh g))).
  split; [exact Hr|]. split; [apply nonneg_clip|].
  split; [apply np_sum_ext, clip_positive_part|].
  split; [|split].
  - unfold propagateBelief.
    replace (t_last_update self - t_last_update at_rest) with 0
      by (cbn [t_last_update at_rest set_velocity]; ring).
    rewrite Hr. cbn [bind]. change (shape at_rest) with sh.
    change (cov_mask (params at_rest)) with (cov_mask (params self)). fold g.
    destruct (Reqb (np_sum sh g) 0); reflexivity.
  - unfold propagateBelief.
    replace (t_last_update self - t_last_update moving) with 0
      by (cbn [t_last_update moving set_velocity]; ring).
    rewrite E, Hr. cbn [bind]. change (shape moving) with sh.
    change (cov_mask (params moving)) with (cov_mask (params self)). fold g.
    destruct (Reqb (np_sum sh g) 0); reflexivity.
  - destruct (Reqb (np_sum sh g) 0) eqn:Ez; [left; reflexivity|right].
    apply Reqb_false in Ez. cbn [beliefRV set_beliefRV].
    apply np_sum_normalised. exact Ez.
Qed.

(** ** Without propagation the filter has no memory *)

(** X11: with propagation off, what a frame publishes and the node it
    leaves do not depend on the belief the node held before. *)
Theorem replace_mode_forgets_prior (self self' : State) (msg : SegmentList)
    (t_prop t_upd : R) (pub : Published) (b : Grid) :
  use_propagation (params self) = false ->
  processSegments self msg t_prop t_upd = Ok (self', Some pub) ->
  processSegments (set_beliefRV self b) msg t_prop t_upd = Ok (self', Some pub).
Proof.
  intros Hu. unfold processSegments, propagation_step.
  cbn [active params set_beliefRV]. rewrite Hu.
  destruct (negb (active self)); [discriminate|]. cbn [bind].
  rewrite (likelihood_congr self (set_beliefRV self b)) by reflexivity.
  destruct (likelihood self (segments msg)) as [raw|]; cbn [bind]; [|discriminate].
  cbn [shape params set_beliefRV]. rewrite Hu.
  destruct (Reqb _ 0); [discriminate|]. intros H. exact H.
Qed.

(** ** The belief stays a distribution *)

Lemma nonneg_div_by (sh : Shape) (g : Grid) (t : R) :
  nonneg sh g -> 0 < t -> nonneg sh (div_by g t).
Proof.
  intros Hg Ht i j Hi Hj. unfold div_by.
  apply Rmult_le_pos; [apply Hg; assumption|]. left. apply Rinv_0_lt_compat. exact Ht.
Qed.

Lemma nonneg_scale (sh : Shape) (g : Grid) (k : R) :
  nonneg sh g -> 0 <= k -> nonneg sh (scale k g).
Proof. intros Hg Hk i j Hi Hj. unfold scale. apply Rmult_le_pos; [exact Hk|apply Hg; assumption]. Qed.

Lemma propagateBelief_nonneg (self self' : State) (now : R) :
  (forall g sigma sh, nonneg sh g -> nonneg sh (gaussian_filter g sigma sh)) ->
  nonneg (shape self) (beliefRV self) ->
  propagateBelief self now = Ok self' ->
  nonneg (shape self') (beliefRV self') /\
  (np_sum (shape self) (beliefRV self) = 1 -> np_sum (shape self') (beliefRV self') = 1).
Proof.
  intros Hf Hb H.
  apply propagateBelief_cases in H as (p & Hr & [[_ ->] | [Hs ->]]); [now split|].
  cbn [shape beliefRV set_beliefRV].
  set (s := gaussian_filter (scale 100 p) (cov_mask (params self)) (shape self)) in *.
  assert (Ns : nonneg (shape self) s).
  { apply Hf, nonneg_scale; [|lra]. apply (remap_mass _ _ _ Hr). }
  pose proof (np_sum_nonneg _ _ Ns) as Pos.
  split; [apply nonneg_div_by; [exact Ns|lra]|].
  intros _. apply np_sum_normalised. exact Hs.
Qed.

(** X12: if the smoothing filter keeps non-negative grids non-negative, a
    frame that ends without an exception keeps the belief non-negative;
    it leaves a belief that sums to 1 whenever it publishes, and
    whenever the belief summed to 1 before. *)
Theorem belief_stays_a_distribution (self self' : State) (msg : SegmentList)
    (t_prop t_upd : R) (pub : option Published) :
  (forall g sigma sh, nonneg sh g -> nonneg sh (gaussian_filter g sigma sh)) ->
  nonneg (shape self) (beliefRV self) ->
  processSegments self msg t_prop t_upd = Ok (self', pub) ->
  nonneg (shape self') (beliefRV self') /\
  (pub <> None -> np_sum (shape self') (beliefRV self') = 1) /\
  (np_sum (shape self) (beliefRV self) = 1 -> np_sum (shape self') (beliefRV self') = 1).
Proof.
  intros Hf Hb. unfold processSegments.
  destruct (negb (active self)).
  { intros [= <- <-]. split; [exact Hb|]. split; [congruence|auto]. }
  destruct (propagation_step self t_prop t_upd) as [self1|] eqn:Ep; cbn [bind]; [|discriminate].
  assert (P : nonneg (shape self1) (beliefRV self1) /\
              (np_sum (shape self) (beliefRV self) = 1 ->
               np_sum (shape self1) (beliefRV self1) = 1)).
  { unfold propagation_step in Ep.
    destruct (use_propagation (params self)); [|injection Ep as <-; now split].
    destruct (propagateBelief self t_prop) as [s|] eqn:E; cbn [bind] in Ep; [|discriminate].
    injection Ep as <-. cbn [shape beliefRV set_t_last_update].
    eapply propagateBelief_nonneg; eassumption. }
  destruct P as [N1 S1].
  destruct (likelihood self1 (segments msg)) as [raw|] eqn:El; cbn [bind]; [|discriminate].
  pose proof (likelihood_nonneg _ _ _ El) as Hn.
  destruct (Reqb (np_norm (shape self1) raw) 0) eqn:Ez.
  { intros [= <- <-]. split; [exact N1|]. split; [congruence|exact S1]. }
  apply Reqb_false in Ez.
  destruct (normalised_likelihood _ _ Hn Ez) as (_ & Nl & Sl & _).
  intros [= <- <-]. cbn [shape beliefRV set_lanePose].
  destruct (use_propagation (params self1)).
  - destruct (updateBelief_sum self1 _ N1 Nl Sl) as [S N]. auto.
  - cbn [shape beliefRV set_beliefRV]. auto.
Qed.

(** ** Geometry of a vote *)

Lemma norm2_opp (u v : R) : norm2 (- u, - v) = norm2 (u, v).
Proof. unfold norm2. cbn [fst snd]. f_equal. ring. Qed.

(** X13: exchanging the endpoints of a yellow segment whose second
    endpoint has the larger x keeps the angle and the distance of the
    vote and lowers its offset by [linewidth_yellow]: the two directions
    stand for the two edges of the yellow line. *)
Theorem reversing_a_yellow_segment (p : Params) (segment : Segment) :
  color segment = YELLOW ->
  x (fst (points segment)) < x (snd (points segment)) ->
  exists d_i phi_i l_i,
    generateVote p segment = Vote d_i phi_i l_i /\
    generateVote p (reversed segment) = Vote (d_i - linewidth_yellow p) phi_i l_i.
Proof.
  intros Hc Hx. unfold generateVote, reversed. rewrite Hc.
  cbn [points color fst snd].
  set (x1 := x (fst (points segment))) in *. set (y1 := y (fst (points segment))).
  set (x2 := x (snd (points segment))) in *. set (y2 := y (snd (points segment))).
  replace (norm2 (x1 - x2, y1 - y2)) with (norm2 (x2 - x1, y2 - y1))
    by (rewrite <- norm2_opp; f_equal; f_equal; ring).
  set (n := norm2 (x2 - x1, y2 - y1)).
  assert (Hn : n <> 0).
  { intros E. apply norm2_zero_iff in E as [E _]. cbn in E. lra. }
  replace (Reqb n 0) with false by (symmetry; apply Reqb_false; exact Hn).
  replace (Rgtb x2 x1) with true by (symmetry; apply Rgtb_true; lra).
  replace (Rgtb x1 x2) with false by (symmetry; apply Rgtb_false; lra).
  rewrite !Rabs_as_test. unfold inner. cbn [fst snd].
  eexists _, _, _. split; [reflexivity|].
  replace ((y1 - y2) / n) with (- ((y2 - y1) / n)) by (field; exact Hn).
  rewrite asin_opp.
  replace ((x1 - x2) / n * x2 + - ((y2 - y1) / n) * y2)
    with (- ((x2 - x1) / n * x2 + (y2 - y1) / n * y2)) by (field; exact Hn).
  replace ((x1 - x2) / n * x1 + - ((y2 - y1) / n) * y1)
    with (- ((x2 - x1) / n * x1 + (y2 - y1) / n * y1)) by (field; exact Hn).
  rewrite !Rabs_Ropp. f_equal; field; exact Hn.
Qed.

Lemma generateVote_range (p : Params) (segment : Segment) (d_i phi_i l_i : R) :
  generateVote p segment = Vote d_i phi_i l_i ->
  let len := norm2 (x (snd (points segment)) - x (fst (points segment)),
                    y (snd (points segment)) - y (fst (points segment))) in
  - (PI / 2) <= phi_i <= PI / 2 /\ 0 < len /\ len / 2 <= l_i.
Proof.
  unfold generateVote.
  set (x1 := x (fst (points segment))). set (y1 := y (fst (points segment))).
  set (x2 := x (snd (points segment))). set (y2 := y (snd (points segment))).
  cbn [fst snd].
  set (n := norm2 (x2 - x1, y2 - y1)).
  destruct (Reqb n 0) eqn:En; [discriminate|].
  apply Reqb_false in En.
  assert (Hn : 0 < n) by (pose proof (norm2_nonneg (x2 - x1, y2 - y1)); fold n in H; lra).
  pose proof (norm2_sqr (x2 - x1, y2 - y1)) as Hs. fold n in Hs. cbn [fst snd] in Hs.
  unfold inner; cbn [fst snd].
  set (a := (x2 - x1) / n * x1 + (y2 - y1) / n * y1).
  set (b := (x2 - x1) / n * x2 + (y2 - y1) / n * y2).
  assert (Hab : b - a = n).
  { unfold a, b.
    replace ((x2 - x1) / n * x2 + (y2 - y1) / n * y2
             - ((x2 - x1) / n * x1 + (y2 - y1) / n * y1))
      with (((x2 - x1) * (x2 - x1) + (y2 - y1) * (y2 - y1)) / n) by (field; lra).
    rewrite <- Hs. field. lra. }
  rewrite !Rabs_as_test.
  assert (Hl : n / 2 <= (Rabs a + Rabs b) / 2).
  { pose proof (Rle_abs b). pose proof (Rle_abs (- a)). rewrite Rabs_Ropp in *. lra. }
  pose proof (asin_bound ((y2 - y1) / n)) as Ha.
  intros H.
  assert (R : (phi_i = asin ((y2 - y1) / n) \/ phi_i = - asin ((y2 - y1) / n)) /\
              l_i = (Rabs a + Rabs b) / 2).
  { destruct (color segment); [injection H as _ <- <-; auto| |injection H as _ <- <-; auto].
    destruct (Rgtb x2 x1); injection H as _ <- <-; auto. }
  destruct R as [[-> | ->] ->]; repeat split; lra.
Qed.

(** X14: a vote that is a number has an angle within [-pi/2, pi/2] and a
    distance of at least half the length of the segment, which is
    positive: the weight [1/l_i] of line 274 never divides by zero, and
    with the default angle bounds the test of line 260 never rejects a
    vote for its angle. *)
Theorem vote_angle_and_distance (p : Params) (segment : Segment) (d_i phi_i l_i : R) :
  generateVote p segment = Vote d_i phi_i l_i ->
  - (PI / 2) <= phi_i <= PI / 2 /\
  0 < l_i /\
  norm2 (x (snd (points segment)) - x (fst (points segment)),
         y (snd (points segment)) - y (fst (points segment))) / 2 <= l_i /\
  (phi_min p = - PI / 2 -> phi_max p = PI / 2 ->
   Rltb phi_i (phi_min p) || Rgtb phi_i (phi_max p) = false).
Proof.
  intros H. destruct (generateVote_range p segment d_i phi_i l_i H) as (Hphi & Hlen & Hl).
  split; [exact Hphi|]. split; [lra|]. split; [exact Hl|].
  intros -> ->. apply orb_false_iff. split; apply Rltb_false; lra.
Qed.

(** ** getSegmentDistance *)

(** X16: [getSegmentDistance] is non-negative, does not depend on the
    order of the endpoints, and is at most the mean of the distances of
    the two endpoints from the origin. *)
Theorem getSegmentDistance_bounds (segment : Segment) :
  0 <= getSegmentDistance segment /\
  getSegmentDistance (reversed segment) = getSegmentDistance segment /\
  getSegmentDistance segment
  <= (norm2 (x (fst (points segment)), y (fst (points segment)))
      + norm2 (x (snd (points segment)), y (snd (points segment)))) / 2.
Proof.
  unfold getSegmentDistance, reversed. cbn [points fst snd].
  set (x1 := x (fst (points segment))). set (y1 := y (fst (points segment))).
  set (x2 := x (snd (points segment))). set (y2 := y (snd (points segment))).
  split; [apply sqrt_pos|]. split; [f_equal; field|].
  set (A := norm2 (x1, y1)). set (B := norm2 (x2, y2)).
  pose proof (norm2_nonneg (x1, y1)) as HA. pose proof (norm2_nonneg (x2, y2)) as HB.
  pose proof (norm2_sqr (x1, y1)) as SA. pose proof (norm2_sqr (x2, y2)) as SB.
  fold A in HA, SA. fold B in HB, SB. cbn [fst snd] in SA, SB.
  assert (CS : x1 * x2 + y1 * y2 <= A * B).
  { destruct (Rle_lt_dec (x1 * x2 + y1 * y2) 0) as [|P]; [nra|].
    apply Rsqr_incr_0; [|lra|nra]. unfold Rsqr.
    assert (E : A * B * (A * B)
                = (x1 * x2 + y1 * y2) * (x1 * x2 + y1 * y2)
                  + (x1 * y2 - y1 * x2) * (x1 * y2 - y1 * x2)).
    { replace (A * B * (A * B)) with (A * A * (B * B)) by ring. rewrite SA, SB. ring. }
    pose proof (Rle_0_sqr (x1 * y2 - y1 * x2)) as Q. unfold Rsqr in Q. lra. }
  rewrite <- (sqrt_Rsqr ((A + B) / 2)) by lra.
  apply sqrt_le_1_alt. unfold Rsqr. nra.
Qed.

(** ** The velocity feed and the grid *)

(** X17: with propagation off the velocity feed is ignored: a frame does
    to a node that received a velocity what it does to the node without
    it, and the velocity is all that differs afterwards. *)
Theorem velocity_is_ignored_without_propagation (self : State) (msg : SegmentList)
    (t_prop t_upd v omega : R) :
  use_propagation (params self) = false ->
  processSegments (updateVelocity self v omega) msg t_prop t_upd
  = match processSegments self msg t_prop t_upd with
    | Ok (self', pub) => Ok (updateVelocity self' v omega, pub)
    | Raise e => Raise e
    end.
Proof.
  intros Hu. unfold processSegments, propagation_step, updateVelocity.
  cbn [active params set_velocity]. rewrite Hu.
  destruct (negb (active self)); [reflexivity|]. cbn [bind].
  rewrite (likelihood_congr self (set_velocity self v omega)) by reflexivity.
  destruct (likelihood self (segments msg)) as [raw|]; cbn [bind]; [|reflexivity].
  cbn [shape params set_velocity]. rewrite Hu.
  destruct (Reqb _ 0); reflexivity.
Qed.

(** ** Concrete frames and states used by the witnesses *)


Lemma empty_frame_outcome (self : State) (t_prop t_upd : R) :
  active self = true -> use_propagation (params self) = false ->
  processSegments self empty_frame t_prop t_upd = Ok (self, None).
Proof.
  intros Ha Hu. unfold processSegments, propagation_step. rewrite Ha, Hu.
  cbn [negb bind empty_frame segments likelihood for_each].
  replace (Reqb (np_norm (shape self) zeros) 0) with true; [reflexivity|].
  symmetry. apply Reqb_true, np_norm_zeros.
Qed.


(** ** The in-lane flag *)

(** [g.max()] is the value of a cell inside the shape that no cell exceeds. *)
Lemma np_max_spec (sh : Shape) (g : Grid) :
  (0 < fst sh)%nat -> (0 < snd sh)%nat ->
  exists i j, (i < fst sh)%nat /\ (j < snd sh)%nat /\
    np_max sh g = g i j /\
    forall a b, (a < fst sh)%nat -> (b < snd sh)%nat -> g a b <= g i j.
Proof.
  intros H1 H2. pose proof (argmax_spec sh g H1 H2) as A.
  unfold np_max. destruct (argmax sh g) as [i j].
  destruct A as (Hi & Hj & M & _).
  exists i, j. repeat split; assumption.
Qed.

(** An active frame that ends without publishing. *)
Lemma processSegments_silent (self self' : State) (msg : SegmentList)
    (t_prop t_upd : R) :
  active self = true ->
  processSegments self msg t_prop t_upd = Ok (self', None) ->
  exists raw,
    propagation_step self t_prop t_upd = Ok self' /\
    likelihood self' (segments msg) = Ok raw /\
    np_sum (shape self') raw = 0.
Proof.
  intros Ha. unfold processSegments. rewrite Ha. cbn [negb].
  destruct (propagation_step self t_prop t_upd) as [self1|]; cbn [bind]; [|discriminate].
  destruct (likelihood self1 (segments msg)) as [raw|] eqn:El; cbn [bind]; [|discriminate].
  destruct (Reqb (np_norm (shape self1) raw) 0) eqn:E; [|discriminate].
  intros [= <-]. exists raw. split; [reflexivity|]. split; [exact El|].
  apply Reqb_true in E. apply np_norm_zero_iff in E; [exact E|].
  eapply likelihood_nonneg; exact El.
Qed.

(** C5: on every frame an active node processes to the end, an in-lane
    flag that is true is published exactly when (a) the largest cell of the
    belief, a cell inside the shape that no cell exceeds, is above
    [min_max], (b) the frame has more than [min_segs] segments and (c) the
    likelihood accumulated before fusion had mass.  Nothing is published
    exactly when that likelihood had no mass; a published flag is the one
    stored in the pose, and it is false when the frame has no more than
    [min_segs] segments. *)
Theorem in_lane_decision (self self' : State) (msg : SegmentList)
    (t_prop t_upd : R) (pub : option Published) :
  active self = true ->
  processSegments self msg t_prop t_upd = Ok (self', pub) ->
  exists self1 raw,
    propagation_step self t_prop t_upd = Ok self1 /\
    likelihood self1 (segments msg) = Ok raw /\
    ((exists m, pub = Some m /\ in_lane_msg m = true) <->
       (exists i j, (i < fst (shape self'))%nat /\ (j < snd (shape self'))%nat /\
          (forall a b, (a < fst (shape self'))%nat -> (b < snd (shape self'))%nat ->
                       beliefRV self' a b <= beliefRV self' i j) /\
          min_max (params self') < beliefRV self' i j) /\
       min_segs (params self') < INR (List.length (segments msg)) /\
       np_sum (shape self1) raw <> 0) /\
    (pub = None <-> np_sum (shape self1) raw = 0) /\
    (forall m, pub = Some m ->
       in_lane (lane_pose m) = in_lane_msg m /\
       lanePose self' = lane_pose m /\
       (INR (List.length (segments msg)) <= min_segs (params self') ->
        in_lane_msg m = false)).
Proof.
  intros Ha H. destruct pub as [m|].
  - apply processSegments_published in H as (_ & self1 & raw & Hp & Hl & Hz & Hs & Hpub).
    exists self1, raw. split; [exact Hp|]. split; [exact Hl|].
    pose proof (likelihood_nonneg _ _ _ Hl) as Hn.
    destruct (normalised_likelihood _ _ Hn Hz) as (Hpos & _ & _ & Hnz).
    destruct (np_norm_nonzero_shape _ _ Hz) as [N1 N2].
    set (ml := div_by raw (np_sum (shape self1) raw)) in *.
    set (self2 := if use_propagation (params self1)
                  then updateBelief self1 ml else set_beliefRV self1 ml) in *.
    assert (Hsh : shape self2 = shape self1)
      by (unfold self2; destruct (use_propagation _); reflexivity).
    assert (Hflag : in_lane (extract self2 msg ml) =
              Rgtb (np_max (shape self2) (beliefRV self2)) (min_max (params self2))
              && Rgtb (INR (List.length (segments msg))) (min_segs (params self2)))
      by (cbn [extract in_lane]; rewrite Hsh; apply Reqb_false in Hnz; rewrite Hnz;
          cbn [negb]; apply andb_true_r).
    rewrite <- Hsh in N1, N2.
    destruct (np_max_spec (shape self2) (beliefRV self2) N1 N2) as (i & j & Hi & Hj & Em & Mx).
    subst self' m. cbn [in_lane_msg lane_pose lanePose set_lanePose params shape beliefRV].
    rewrite Hflag, Em.
    split; [split|split; [split|]].
    + intros (m & [= <-] & F). cbn [in_lane_msg] in F. rewrite ?Hflag, ?Em in F.
      apply andb_prop in F as [F1 F2]. apply Rgtb_true in F1, F2.
      split; [|split; [exact F2|lra]].
      exists i, j. repeat split; assumption.
    + intros ((a & b & La & Lb & _ & Gt) & F2 & _).
      eexists. split; [reflexivity|]. cbn [in_lane_msg]. rewrite ?Hflag, ?Em.
      apply andb_true_intro. split; apply Rgtb_true; [|exact F2].
      pose proof (Mx a b La Lb). lra.
    + discriminate.
    + intros E. lra.
    + intros m [= <-]. cbn [in_lane_msg lane_pose]. rewrite ?Hflag, ?Em.
      split; [reflexivity|]. split; [reflexivity|].
      intros Hle. apply andb_false_intro2. apply Rgtb_false. exact Hle.
  - apply processSegments_silent in H as (raw & Hp & Hl & Hz); [|exact Ha].
    exists self', raw. split; [exact Hp|]. split; [exact Hl|].
    split; [split|split; [split|]].
    + intros (m & E & _). discriminate.
    + intros (_ & _ & F). contradiction.
    + intros _. exact Hz.
    + reflexivity.
    + intros m E. discriminate.
Qed.

(** ** Normalisation of the belief *)

(** C1 (amended): the belief sums to 1 after [updateBelief] whenever the
    fused grid has a non-zero total (it has one when the prior is
    non-negative and the likelihood is non-negative with total 1).
    [propagateBelief], when it returns, keeps the node as it was exactly
    when the smoothed grid has total 0, and otherwise stores that grid
    divided by its total, which sums to 1.  A frame an active node
    processes with propagation off keeps the node as it was and publishes
    nothing exactly when the accumulated likelihood has total 0, and
    otherwise publishes and stores the likelihood divided by its total,
    which sums to 1.  [initializeBelief] stores the density values as they
    are, with no normalisation. *)
Theorem belief_normalisation (self : State) :
  (forall ml, np_sum (shape self) (fuse (beliefRV self) ml) <> 0 ->
     np_sum (shape self) (beliefRV (updateBelief self ml)) = 1) /\
  (forall ml, nonneg (shape self) (beliefRV self) -> nonneg (shape self) ml ->
     np_sum (shape self) ml = 1 ->
     np_sum (shape self) (fuse (beliefRV self) ml) <> 0) /\
  (forall now self', propagateBelief self now = Ok self' ->
     exists p, remap self (now - t_last_update self) = Ok p /\
       let s := gaussian_filter (scale 100 p) (cov_mask (params self)) (shape self) in
       (np_sum (shape self) s = 0 /\ self' = self) \/
       (np_sum (shape self) s <> 0 /\
        beliefRV self' = div_by s (np_sum (shape self) s) /\
        np_sum (shape self') (beliefRV self') = 1)) /\
  (forall msg t_prop t_upd self' pub,
     active self = true -> use_propagation (params self) = false ->
     processSegments self msg t_prop t_upd = Ok (self', pub) ->
     exists raw, likelihood self (segments msg) = Ok raw /\
       ((np_sum (shape self) raw = 0 /\ pub = None /\ self' = self) \/
        (np_sum (shape self) raw <> 0 /\ (exists m, pub = Some m) /\
         beliefRV self' = div_by raw (np_sum (shape self) raw) /\
         np_sum (shape self') (beliefRV self') = 1))) /\
  beliefRV (initializeBelief self)
  = (fun i j => pdf (mean_0 (params self)) (cov_0 (params self)) (d self i j) (phi self i j)).
Proof.
  split; [|split; [|split; [|split]]].
  - intros ml Hs. cbn. apply np_sum_normalised. exact Hs.
  - intros ml Hb Hl H1. pose proof (fuse_ge_likelihood _ _ _ Hb Hl). lra.
  - intros now self' H.
    apply propagateBelief_cases in H as (p & Hr & [[Hz ->] | [Hs ->]]);
      exists p; (split; [exact Hr|]); [left; split; [exact Hz|reflexivity]|right].
    split; [exact Hs|]. split; [reflexivity|].
    cbn. apply np_sum_normalised. exact Hs.
  - intros msg t_prop t_upd self' [pub|] Ha Hu H.
    + apply processSegments_published in H as (_ & self1 & raw & Hp & Hl & Hz & -> & _).
      unfold propagation_step in Hp. rewrite Hu in Hp. injection Hp as <-.
      rewrite Hu. exists raw. split; [exact Hl|]. right.
      pose proof (likelihood_nonneg _ _ _ Hl) as Hn.
      destruct (normalised_likelihood (shape self) raw Hn Hz) as (Hpos & _ & H1 & _).
      split; [lra|]. split; [eexists; reflexivity|]. split; [reflexivity|exact H1].
    + apply processSegments_silent in H as (raw & Hp & Hl & Hz); [|exact Ha].
      unfold propagation_step in Hp. rewrite Hu in Hp. injection Hp as <-.
      exists raw. split; [exact Hl|]. left. split; [exact Hz|]. split; reflexivity.
  - reflexivity.
Qed.

End Node.

(** * The instance of the filter, counterexamples and witnesses *)

Lemma separable_gaussian_skip (g : Grid) (sh : Shape) :
  separable_gaussian g (0, 0) sh = g.
Proof.
  unfold separable_gaussian. cbn [fst snd].
  replace (Rltb (1 / 10 ^ 15) 0) with false; [reflexivity|].
  symmetry. apply Rltb_false.
  assert (0 < 10 ^ 15) by (apply pow_lt; lra).
  apply Rlt_le, Rdiv_lt_0_compat; lra.
Qed.

(** C8: a zero-length yellow segment with non-negative coordinates is not
    skipped.  Line 375 divides by the zero norm without a test, the vote
    is not a number, it passes the bounds test of line 260 and the
    subscript built from it raises out of [processSegments]: the frame of
    the default node that holds only that segment ends in an exception. *)
Lemma zero_length_segment_aborts_frame :
  color zero_length_segment = YELLOW /\
  0 <= x (fst (points zero_length_segment)) /\
  0 <= y (fst (points zero_length_segment)) /\
  snd (points zero_length_segment) = fst (points zero_length_segment) /\
  processSegments separable_gaussian (init no_params 0) zero_length_frame 0 0
  = Raise ValueError.
Proof.
  split; [reflexivity|]. split; [cbn; lra|]. split; [cbn; lra|].
  split; [reflexivity|]. apply zero_length_frame_raises.
Qed.

(** C7, as stated, fails: with [v = 0], [omega = 0] and both sigmas 0 the
    first propagation after construction changes the belief (it divides it
    by its total, which is not 1). *)
Lemma stationary_propagation_changes_belief :
  let self := init unsmoothed 0 in
  v_current self = 0 /\ w_current self = 0 /\ cov_mask (params self) = (0, 0) /\
  exists self', propagateBelief separable_gaussian self 1 = Ok self' /\
    beliefRV self' 35%nat 79%nat <> beliefRV self 35%nat 79%nat.
Proof.
  repeat split.
  apply first_propagation_rescales. apply separable_gaussian_skip.
Qed.

Lemma one_hot_in_unit (sh : Shape) : in_unit sh one_hot.
Proof.
  intros i j _ _. unfold one_hot, add_at, zeros.
  destruct (Nat.eqb i 0 && Nat.eqb j 0); lra.
Qed.

Lemma one_hot_nonneg (sh : Shape) : nonneg sh one_hot.
Proof. intros i j Hi Hj. apply (one_hot_in_unit sh i j Hi Hj). Qed.

Lemma one_hot_sum : np_sum (60, 158)%nat one_hot = 1.
Proof.
  unfold one_hot. rewrite np_sum_add_at by (cbn; lia).
  rewrite np_sum_zeros. lra.
Qed.

Lemma diagonal_frame_publishes :
  exists self' pub,
    processSegments separable_gaussian (init no_params 0) diagonal_frame 0 0
    = Ok (self', Some pub).
Proof.
  apply processSegments_publishes
    with (self1 := init no_params 0) (raw := add_at zeros 9 117 (1 / / sqrt 2)).
  - reflexivity.
  - reflexivity.
  - apply diagonal_likelihood.
  - rewrite default_shape, np_sum_add_at by (cbn; lia). rewrite np_sum_zeros.
    pose proof inv_sqrt2_bounds as [A B].
    assert (0 < 1 / / sqrt 2) by (apply Rdiv_lt_0_compat; lra). lra.
Qed.

Lemma belief_normalisation_witness :
  (let self := set_beliefRV (init no_params 0) one_hot in
   nonneg (shape self) (beliefRV self) /\
   nonneg (shape self) one_hot /\
   np_sum (shape self) one_hot = 1 /\
   np_sum (shape self) (beliefRV (updateBelief self one_hot)) = 1) /\
  (exists self',
     propagateBelief separable_gaussian (init unsmoothed 0) 3 = Ok self' /\
     self' <> init unsmoothed 0 /\
     np_sum (shape self') (beliefRV self') = 1) /\
  (exists self' m,
     processSegments separable_gaussian (init no_params 0) diagonal_frame 0 0
     = Ok (self', Some m) /\
     np_sum (shape self') (beliefRV self') = 1) /\
  (processSegments separable_gaussian (init no_params 0) empty_frame 0 0
   = Ok (init no_params 0, None) /\
   exists raw, likelihood (init no_params 0) (segments empty_frame) = Ok raw /\
               np_sum (shape (init no_params 0)) raw = 0).
Proof.
  split; [|split; [|split]].
  - intros self.
    assert (H1 : nonneg (shape self) (beliefRV self)) by apply one_hot_nonneg.
    assert (H2 : nonneg (shape self) one_hot) by apply one_hot_nonneg.
    assert (H3 : np_sum (shape self) one_hot = 1).
    { change (shape self) with (shape (init no_params 0)).
      rewrite default_shape. apply one_hot_sum. }
    split; [exact H1|]. split; [exact H2|]. split; [exact H3|].
    destruct (belief_normalisation separable_gaussian self) as (A & B & _).
    exact (A one_hot (B one_hot H1 H2 H3)).
  - set (self := init unsmoothed 0).
    assert (V : valid_axes (read_params unsmoothed)).
    { unfold valid_axes, get_param; cbn. pose proof PI_RGT_0. repeat split; lra. }
    assert (G : grid_matches self) by exact (init_grid_matches unsmoothed 0 V).
    assert (Hn : nonneg (shape self) (beliefRV self)) by apply nonneg_initial_belief.
    assert (Hs : shape self = (60, 158)%nat) by (apply shape_default_axes; reflexivity).
    assert (M : 1 < np_sum (shape self) (beliefRV self)).
    { unfold self, init.
      match goal with |- context [initializeBelief ?s] => set (s0 := s) end.
      change (shape (initializeBelief s0)) with (shape s0).
      assert (Hs0 : shape s0 = (60, 158)%nat) by exact Hs.
      destruct default_cell_35_79 as [Hc Hq].
      apply initial_mass_above_1; try reflexivity; try (rewrite Hs0; cbn; lia).
      - exact Hc.
      - exact Hq. }
    pose proof (propagateBelief_stationary_eq separable_gaussian self 3 G
                  (proj1 (proj2 (proj2 V))) (proj2 (proj2 (proj2 V))) eq_refl eq_refl) as P.
    cbn zeta in P.
    match type of P with _ = Ok ?r => set (self' := r) in * end.
    exists self'. split; [exact P|].
    destruct (belief_normalisation separable_gaussian self) as (_ & _ & C & _).
    destruct (C 3 self' P) as (p & Hr & Hcase).
    pose proof (remap_stationary self (3 - t_last_update self) G
                  (proj1 (proj2 (proj2 V))) (proj2 (proj2 (proj2 V))) eq_refl eq_refl) as Hr'.
    assert (Ep : p = clip (shape self) (beliefRV self)) by congruence.
    assert (Sum : np_sum (shape self)
                    (separable_gaussian (scale 100 p) (cov_mask (params self)) (shape self))
                  = 100 * np_sum (shape self) (beliefRV self)).
    { change (cov_mask (params self)) with (0, 0).
      rewrite separable_gaussian_skip, np_sum_scale, Ep. f_equal.
      apply np_sum_ext, clip_nonneg, Hn. }
    cbn zeta in Hcase. rewrite Sum in Hcase.
    destruct Hcase as [[Hz _] | (_ & Eb & H1)].
    + exfalso. lra.
    + split; [|exact H1].
      intros E. rewrite E in H1. fold self in H1. lra.
  - destruct diagonal_frame_publishes as (self' & m & H).
    exists self', m. split; [exact H|].
    destruct (belief_normalisation separable_gaussian (init no_params 0)) as (_ & _ & _ & D & _).
    destruct (D diagonal_frame 0 0 self' (Some m) eq_refl eq_refl H)
      as (raw & _ & [(_ & E & _) | (_ & _ & _ & H1)]); [discriminate|exact H1].
  - pose proof (empty_frame_outcome separable_gaussian (init no_params 0) 0 0 eq_refl eq_refl) as H.
    split; [exact H|].
    destruct (belief_normalisation separable_gaussian (init no_params 0)) as (_ & _ & _ & D & _).
    destruct (D empty_frame 0 0 _ None eq_refl eq_refl H)
      as (raw & Hl & [(Hz & _ & _) | (_ & (m & E) & _)]); [|discriminate].
    exists raw. split; [exact Hl|exact Hz].
Defined.

Lemma fusion_normalised_witness :
  let self := set_beliefRV (init no_params 0) one_hot in
  in_unit (shape self) (beliefRV self) /\
  in_unit (shape self) one_hot /\
  np_sum (shape self) one_hot = 1 /\
  np_sum (shape self) (beliefRV (updateBelief self one_hot)) = 1 /\
  nonneg (shape self) (beliefRV (updateBelief self one_hot)).
Proof.
  intros self.
  assert (H1 : in_unit (shape self) (beliefRV self)) by apply one_hot_in_unit.
  assert (H2 : in_unit (shape self) one_hot) by apply one_hot_in_unit.
  assert (H3 : np_sum (shape self) one_hot = 1).
  { change (shape self) with (shape (init no_params 0)).
    rewrite default_shape. apply one_hot_sum. }
  destruct (fusion_normalised self one_hot H1 H2 H3) as (_ & S & N & _).
  split; [exact H1|]. split; [exact H2|]. split; [exact H3|].
  split; [exact S|exact N].
Defined.

Lemma generateVote_yellow_witness :
  color diagonal_segment = YELLOW /\
  0 <= x (fst (points diagonal_segment)) /\ 0 <= y (fst (points diagonal_segment)) /\
  0 <= x (snd (points diagonal_segment)) /\ 0 <= y (snd (points diagonal_segment)) /\
  generateVote (read_params no_params) diagonal_segment
  = Vote (2 / 10 - / sqrt 2) (PI / 4) (/ sqrt 2) /\
  exists raw,
    likelihood (init no_params 0) [diagonal_segment] = Ok raw /\
    raw 9%nat 117%nat = sqrt 2 /\
    (forall i j, (i <> 9 \/ j <> 117)%nat -> raw i j = 0).
Proof.
  assert (H1 : 0 <= x (fst (points diagonal_segment))) by (cbn; lra).
  assert (H2 : 0 <= y (fst (points diagonal_segment))) by (cbn; lra).
  assert (H3 : 0 <= x (snd (points diagonal_segment))) by (cbn; lra).
  assert (H4 : 0 <= y (snd (points diagonal_segment))) by (cbn; lra).
  destruct (generateVote_yellow (read_params no_params) diagonal_segment
              eq_refl H1 H2 H3 H4) as [_ E].
  destruct (E eq_refl eq_refl eq_refl) as [V L].
  destruct (L 0) as (_ & _ & _ & _ & _ & _ & raw & C1 & C2 & C3 & _).
  split; [reflexivity|]. split; [exact H1|]. split; [exact H2|].
  split; [exact H3|]. split; [exact H4|]. split; [exact V|].
  exists raw. split; [exact C1|]. split; [exact C2|exact C3].
Defined.

Lemma weighting_polynomial_witness :
  let self := init float_control_points 0 in
  let p := params self in
  zero_val p = PFloat 1 /\ l_peak p = PFloat 1 /\
  peak_val p = PFloat 10 /\ l_max p = PFloat 2 /\
  0 < 1 < 2 /\
  dist_weight (dwa self) (dwb self) (dwc self) 1 0 = 1 /\
  dist_weight (dwa self) (dwb self) (dwc self) 1 1 = 10 /\
  dist_weight (dwa self) (dwb self) (dwc self) 1 2 = 0.
Proof.
  intros self p.
  assert (H : 0 < 1 < 2) by lra.
  destruct (weighting_polynomial p 1 1 10 2 eq_refl eq_refl eq_refl eq_refl H)
    as (A & B & C & _).
  repeat split; try lra; assumption.
Defined.

Lemma crowded_frame_likelihood :
  exists raw,
    likelihood (init no_params 0) (segments crowded_frame) = Ok raw /\
    raw 9%nat 117%nat = 11 * sqrt 2 /\
    (forall i j, (i <> 9 \/ j <> 117)%nat -> raw i j = 0) /\
    np_sum (60, 158)%nat raw = 11 * sqrt 2.
Proof.
  destruct (diagonal_votes (init no_params 0) 11 zeros (default_grid_init 0))
    as (raw & E & C & O).
  exists raw. split; [exact E|].
  assert (C' : raw 9%nat 117%nat = 11 * sqrt 2).
  { rewrite C. unfold zeros. rewrite INR_IZR_INZ. cbn [Z.of_nat Pos.of_succ_nat Pos.succ]. lra. }
  split; [exact C'|]. split; [exact O|].
  rewrite (np_sum_ext _ raw (add_at zeros 9 117 (11 * sqrt 2))).
  - rewrite np_sum_add_at by (cbn; lia). rewrite np_sum_zeros. lra.
  - intros i j _ _. destruct (add_at_cells 9 117 (11 * sqrt 2)) as [A B].
    destruct (Nat.eq_dec i 9) as [->|Hi]; [destruct (Nat.eq_dec j 117) as [->|Hj]|].
    + rewrite A. exact C'.
    + rewrite B by (right; exact Hj). apply O. right; exact Hj.
    + rewrite B by (left; exact Hi). apply O. left; exact Hi.
Qed.

Lemma in_lane_decision_witness :
  exists self' m,
    active (init no_params 0) = true /\
    processSegments separable_gaussian (init no_params 0) crowded_frame 0 0
    = Ok (self', Some m) /\
    beliefRV self' 9%nat 117%nat = 1 /\
    in_lane_msg m = true.
Proof.
  destruct crowded_frame_likelihood as (raw & L & C & O & S).
  pose proof sqrt2_bounds as [A B].
  assert (Hs : np_sum (shape (init no_params 0)) raw <> 0)
    by (rewrite default_shape, S; lra).
  destruct (processSegments_publishes separable_gaussian (init no_params 0)
              (init no_params 0) crowded_frame 0 0 raw eq_refl eq_refl L Hs)
    as (self' & pub & H).
  exists self', pub. split; [reflexivity|]. split; [exact H|].
  destruct (processSegments_published separable_gaussian _ _ _ _ _ _ H)
    as (_ & self1 & raw1 & Hp & Hl & _ & Es & _).
  change (Ok (init no_params 0) = Ok self1) in Hp. injection Hp as <-.
  rewrite L in Hl. injection Hl as <-.
  change (self' = set_lanePose
            (set_beliefRV (init no_params 0)
               (div_by raw (np_sum (shape (init no_params 0)) raw)))
            (extract
               (set_beliefRV (init no_params 0)
                  (div_by raw (np_sum (shape (init no_params 0)) raw)))
               crowded_frame (div_by raw (np_sum (shape (init no_params 0)) raw)))) in Es.
  assert (Eb : beliefRV self' = div_by raw (11 * sqrt 2))
    by (rewrite Es; cbn [beliefRV set_lanePose set_beliefRV]; rewrite default_shape, S; reflexivity).
  assert (Esh : shape self' = (60, 158)%nat)
    by (rewrite Es; cbn [shape set_lanePose set_beliefRV]; apply default_shape).
  assert (Ep : params self' = read_params no_params) by (rewrite Es; reflexivity).
  assert (E1 : beliefRV self' 9%nat 117%nat = 1)
    by (rewrite Eb; unfold div_by; rewrite C; field; lra).
  split; [exact E1|].
  destruct (in_lane_decision separable_gaussian (init no_params 0) self' crowded_frame
              0 0 (Some pub) eq_refl H)
    as (s1 & r1 & Hp1 & Hl1 & [_ Back] & _).
  change (Ok (init no_params 0) = Ok s1) in Hp1. injection Hp1 as <-.
  rewrite L in Hl1. injection Hl1 as <-.
  destruct Back as (m & [= <-] & F); [|exact F].
  split; [|split; [|exact Hs]].
  - exists 9%nat, 117%nat. rewrite Esh, Ep, E1.
    split; [cbn; lia|]. split; [cbn; lia|]. split.
    + intros a b _ _. rewrite Eb. unfold div_by.
      destruct (Nat.eq_dec a 9) as [->|Ha]; [destruct (Nat.eq_dec b 117) as [->|Hb]|].
      * rewrite C. right. field. lra.
      * rewrite O by (right; exact Hb). lra.
      * rewrite O by (left; exact Ha). lra.
    + cbn. unfold get_param; cbn. lra.
  - rewrite Ep. cbn. unfold get_param; cbn. lra.
Defined.

Lemma frame_without_observation_witness :
  let self := init no_params 0 in
  propagation_step separable_gaussian self 0 0 = Ok self /\
  segments empty_frame = [] /\
  processSegments separable_gaussian self empty_frame 0 0 = Ok (self, None).
Proof.
  intros self.
  assert (H1 : propagation_step separable_gaussian self 0 0 = Ok self) by reflexivity.
  assert (H2 : segments empty_frame = []) by reflexivity.
  split; [exact H1|]. split; [exact H2|].
  exact (proj1 (frame_without_observation separable_gaussian self self empty_frame 0 0
                  H1 (or_introl H2))).
Defined.

Lemma propagateBelief_stationary_witness :
  let self := init unsmoothed 0 in
  grid_matches self /\ 0 < delta_d (params self) /\ 0 < delta_phi (params self) /\
  v_current self = 0 /\ w_current self = 0 /\
  cov_mask (params self) = (0, 0) /\
  nonneg (shape self) (beliefRV self) /\
  1 < np_sum (shape self) (beliefRV self) /\
  exists p self',
    remap self (5 - t_last_update self) = Ok p /\
    np_sum (shape self) p = np_sum (shape self) (beliefRV self) /\
    propagateBelief separable_gaussian self 5 = Ok self' /\
    np_sum (shape self) (beliefRV self') = 1 /\
    ~ same_cells (shape self) (beliefRV self') (beliefRV self).
Proof.
  intros self.
  assert (V : valid_axes (read_params unsmoothed)).
  { unfold valid_axes, get_param; cbn. pose proof PI_RGT_0. repeat split; lra. }
  assert (G : grid_matches self) by exact (init_grid_matches unsmoothed 0 V).
  assert (Hd : 0 < delta_d (params self)) by apply V.
  assert (Hp : 0 < delta_phi (params self)) by apply V.
  assert (Hn : nonneg (shape self) (beliefRV self)) by apply nonneg_initial_belief.
  assert (Hs : shape self = (60, 158)%nat) by (apply shape_default_axes; reflexivity).
  assert (M : 1 < np_sum (shape self) (beliefRV self)).
  { unfold self, init.
    match goal with |- context [initializeBelief ?s] => set (s0 := s) end.
    change (shape (initializeBelief s0)) with (shape s0).
    assert (Hs0 : shape s0 = (60, 158)%nat) by exact Hs.
    destruct default_cell_35_79 as [Hc Hq].
    apply initial_mass_above_1; try reflexivity; try (rewrite Hs0; cbn; lia).
    - exact Hc.
    - exact Hq. }
  destruct (propagateBelief_stationary separable_gaussian self 5 G Hd Hp eq_refl eq_refl)
    as (p & self' & R1 & _ & R2 & R3 & _ & _ & R4).
  destruct (R4 (fun g => separable_gaussian_skip g (shape self)) eq_refl Hn ltac:(lra))
    as [S1 S2].
  split; [exact G|]. split; [exact Hd|]. split; [exact Hp|].
  split; [reflexivity|]. split; [reflexivity|]. split; [reflexivity|].
  split; [exact Hn|]. split; [exact M|].
  exists p, self'. split; [exact R1|]. split.
  - rewrite R2. apply np_sum_ext, positive_part_nonneg, Hn.
  - split; [exact R3|]. split; [exact S1|]. apply S2. lra.
Defined.

Lemma passed_over_segment_is_skipped_witness :
  passed_over white_segment /\
  likelihood (init no_params 0) ([diagonal_segment] ++ white_segment :: [])
  = likelihood (init no_params 0) ([diagonal_segment] ++ []).
Proof.
  assert (H : passed_over white_segment) by (left; discriminate).
  split; [exact H|].
  exact (proj2 (passed_over_segment_is_skipped (init no_params 0) white_segment
                  [diagonal_segment] [] H)).
Defined.

(** ** Witnesses of the further properties *)

Lemma Rdiv_nonneg (a b : R) : 0 <= a -> 0 <= b -> 0 <= a / b.
Proof.
  intros Ha [Hb | <-]; unfold Rdiv.
  - apply Rmult_le_pos; [exact Ha|]. left. apply Rinv_0_lt_compat. exact Hb.
  - rewrite Rinv_0. lra.
Qed.

Lemma correlate1d_nonneg (sigma : R) (n : nat) (v : nat -> R) (i : nat) :
  (forall a, (a < n)%nat -> 0 <= v a) -> 0 <= correlate1d sigma n v i.
Proof.
  intros Hv. unfold correlate1d. apply Rdiv_nonneg.
  - apply sum_upto_nonneg. intros m _. apply Rmult_le_pos.
    + left. apply exp_pos.
    + unfold padded. destruct (_ && _) eqn:E; [|lra].
      apply andb_prop in E as [E1 E2]. apply Z.leb_le in E1. apply Z.ltb_lt in E2.
      apply Hv. lia.
  - apply sum_upto_nonneg. intros m _. left. apply exp_pos.
Qed.

Lemma separable_gaussian_nonneg (g : Grid) (sigma : R * R) (sh : Shape) :
  nonneg sh g -> nonneg sh (separable_gaussian g sigma sh).
Proof.
  intros Hg. unfold separable_gaussian.
  set (g1 := if Rltb (1 / 10 ^ 15) (fst sigma)
             then fun i j => correlate1d (fst sigma) (fst sh) (fun a => g a j) i
             else g).
  assert (H1 : nonneg sh g1).
  { unfold g1. destruct (Rltb _ (fst sigma)); [|exact Hg].
    intros i j Hi Hj. apply correlate1d_nonneg. intros a Ha. apply Hg; assumption. }
  destruct (Rltb _ (snd sigma)); [|exact H1].
  intros i j Hi Hj. apply correlate1d_nonneg. intros b Hb. apply H1; assumption.
Qed.

Lemma default_resolutions :
  0 < delta_d (read_params no_params) /\ 0 < delta_phi (read_params no_params).
Proof. cbn. unfold get_param; cbn. split; lra. Qed.


Lemma published_pose_is_first_maximum_witness :
  exists self' pub i j,
    processSegments separable_gaussian (init no_params 0) diagonal_frame 0 0
    = Ok (self', Some pub) /\
    (i < fst (shape self'))%nat /\ (j < snd (shape self'))%nat /\
    pose_d (lane_pose pub) = d_min (params self') + INR i * delta_d (params self') /\
    pose_phi (lane_pose pub) = phi_min (params self') + INR j * delta_phi (params self').
Proof.
  destruct diagonal_frame_publishes as (self' & pub & H).
  destruct (published_pose_is_first_maximum separable_gaussian _ _ _ _ _ _ H)
    as (i & j & Hi & Hj & Ed & Ep & _).
  exists self', pub, i, j. repeat split; assumption.
Defined.

Lemma frame_order_is_irrelevant_witness :
  let msg := {| stamp := 0; segments := [diagonal_segment; white_segment] |} in
  let msg' := {| stamp := 0; segments := [white_segment; diagonal_segment] |} in
  Permutation (segments msg) (segments msg') /\ stamp msg = stamp msg' /\
  forall r, processSegments separable_gaussian (init no_params 0) msg 0 0 = Ok r ->
            processSegments separable_gaussian (init no_params 0) msg' 0 0 = Ok r.
Proof.
  intros msg msg'.
  assert (P : Permutation (segments msg) (segments msg')) by apply perm_swap.
  split; [exact P|]. split; [reflexivity|].
  exact (proj1 (frame_order_is_irrelevant separable_gaussian (init no_params 0)
                  msg msg' 0 0 P eq_refl)).
Defined.

Lemma frame_publishes_iff_some_vote_witness :
  exists self' pub,
    use_distance_weighting (params (init no_params 0)) = false /\
    processSegments separable_gaussian (init no_params 0) diagonal_frame 0 0
    = Ok (self', Some pub) /\
    exists s, In s (segments diagonal_frame) /\ votes (params (init no_params 0)) s.
Proof.
  destruct diagonal_frame_publishes as (self' & pub & H).
  exists self', pub. split; [reflexivity|]. split; [exact H|].
  destruct (frame_publishes_iff_some_vote separable_gaussian (init no_params 0) self'
              diagonal_frame 0 0 (Some pub) eq_refl H) as [V _].
  apply V. discriminate.
Defined.

Lemma single_vote_round_trip_witness :
  exists self' pub d_i phi_i l_i,
    processSegments separable_gaussian (init no_params 0) diagonal_frame 0 0
    = Ok (self', Some pub) /\
    generateVote (read_params no_params) diagonal_segment = Vote d_i phi_i l_i /\
    pose_d (lane_pose pub) <= d_i < pose_d (lane_pose pub) + 2 / 100 /\
    pose_phi (lane_pose pub) <= phi_i < pose_phi (lane_pose pub) + 2 / 100.
Proof.
  destruct diagonal_frame_publishes as (self' & pub & H).
  destruct (single_vote_round_trip separable_gaussian (init no_params 0) self'
              diagonal_frame 0 0 pub diagonal_segment [] []
              eq_refl (proj1 default_resolutions) (proj2 default_resolutions)
              eq_refl (Forall_nil _) (Forall_nil _) H)
    as (d_i & phi_i & l_i & Ev & Cd & Cp).
  exists self', pub, d_i, phi_i, l_i.
  split; [exact H|]. split; [exact Ev|]. split; [exact Cd|exact Cp].
Defined.

Lemma propagation_creates_no_mass_witness :
  let self := init unsmoothed 0 in
  remap self 3 = Ok (clip (shape self) (beliefRV self)) /\
  np_sum (shape self) (clip (shape self) (beliefRV self))
  <= np_sum (shape self) (beliefRV self).
Proof.
  intros self.
  assert (V : valid_axes (read_params unsmoothed)).
  { unfold valid_axes, get_param; cbn. pose proof PI_RGT_0. repeat split; lra. }
  assert (Hr : remap self 3 = Ok (clip (shape self) (beliefRV self))).
  { apply remap_stationary; try reflexivity; try apply V.
    apply init_grid_matches. exact V. }
  split; [exact Hr|].
  destruct (propagation_creates_no_mass self 3 _ Hr) as (_ & _ & B).
  apply B. apply nonneg_initial_belief.
Defined.


Lemma frame_changes_only_belief_pose_clock_witness :
  exists self' pub,
    processSegments separable_gaussian (init no_params 0) diagonal_frame 0 0
    = Ok (self', Some pub) /\
    params self' = params (init no_params 0) /\
    d self' = d (init no_params 0) /\
    t_last_update self' = t_last_update (init no_params 0).
Proof.
  destruct diagonal_frame_publishes as (self' & pub & H).
  destruct (frame_changes_only_belief_pose_clock separable_gaussian _ _ _ _ _ _ H)
    as (K1 & _ & K3 & _ & _ & _ & _ & _ & _ & _ & K11 & _).
  exists self', pub. split; [exact H|]. split; [exact K1|]. split; [exact K3|exact K11].
Defined.

Lemma propagation_without_elapsed_time_witness :
  let self := init unsmoothed 0 in
  grid_matches self /\ 0 < delta_d (params self) /\ 0 < delta_phi (params self) /\
  remap (set_velocity self 1 1) 0 = remap (set_velocity self 0 0) 0 /\
  exists s,
    propagateBelief separable_gaussian (set_velocity self 1 1) (t_last_update self)
    = Ok (set_velocity s 1 1) /\
    propagateBelief separable_gaussian (set_velocity self 0 0) (t_last_update self)
    = Ok s.
Proof.
  intros self.
  assert (V : valid_axes (read_params unsmoothed)).
  { unfold valid_axes, get_param; cbn. pose proof PI_RGT_0. repeat split; lra. }
  assert (G : grid_matches self) by exact (init_grid_matches unsmoothed 0 V).
  assert (Hd : 0 < delta_d (params self)) by apply V.
  assert (Hp : 0 < delta_phi (params self)) by apply V.
  split; [exact G|]. split; [exact Hd|]. split; [exact Hp|].
  destruct (propagation_without_elapsed_time separable_gaussian self 1 1 G Hd Hp)
    as (E & p & s & _ & _ & _ & P0 & P1 & _).
  split; [exact E|]. exists s. split; [exact P1|exact P0].
Defined.

Lemma replace_mode_forgets_prior_witness :
  exists self' pub,
    use_propagation (params (init no_params 0)) = false /\
    processSegments separable_gaussian (init no_params 0) diagonal_frame 0 0
    = Ok (self', Some pub) /\
    processSegments separable_gaussian (set_beliefRV (init no_params 0) one_hot)
      diagonal_frame 0 0 = Ok (self', Some pub).
Proof.
  destruct diagonal_frame_publishes as (self' & pub & H).
  exists self', pub. split; [reflexivity|]. split; [exact H|].
  exact (replace_mode_forgets_prior separable_gaussian (init no_params 0) self'
           diagonal_frame 0 0 pub one_hot eq_refl H).
Defined.

Lemma belief_stays_a_distribution_witness :
  let self := init unsmoothed 0 in
  (forall g sigma sh, nonneg sh g -> nonneg sh (separable_gaussian g sigma sh)) /\
  nonneg (shape self) (beliefRV self) /\
  use_propagation (params self) = true /\
  exists self' m,
    processSegments separable_gaussian self diagonal_frame 0 0 = Ok (self', Some m) /\
    nonneg (shape self') (beliefRV self') /\
    np_sum (shape self') (beliefRV self') = 1.
Proof.
  intros self.
  assert (V : valid_axes (read_params unsmoothed)).
  { unfold valid_axes, get_param; cbn. pose proof PI_RGT_0. repeat split; lra. }
  assert (G : grid_matches self) by exact (init_grid_matches unsmoothed 0 V).
  assert (Hn : nonneg (shape self) (beliefRV self)) by apply nonneg_initial_belief.
  assert (Hs : shape self = (60, 158)%nat) by (apply shape_default_axes; reflexivity).
  pose proof (propagateBelief_stationary_eq separable_gaussian self 0 G
                (proj1 (proj2 (proj2 V))) (proj2 (proj2 (proj2 V))) eq_refl eq_refl) as P.
  cbn zeta in P.
  match type of P with _ = Ok ?r => set (s0 := r) in * end.
  assert (Hstep : propagation_step separable_gaussian self 0 0 = Ok (set_t_last_update s0 0)).
  { unfold propagation_step. change (use_propagation (params self)) with true.
    cbv iota. rewrite P. reflexivity. }
  assert (Hg : default_grid (set_t_last_update s0 0)).
  { unfold s0. destruct (Reqb _ 0); unfold default_grid;
      repeat split; try reflexivity; exact Hs. }
  assert (Hl : likelihood (set_t_last_update s0 0) (segments diagonal_frame)
               = Ok (add_at zeros 9 117 (1 / / sqrt 2))).
  { unfold likelihood, diagonal_frame. cbn [segments for_each].
    rewrite diagonal_vote_segment by exact Hg. reflexivity. }
  assert (Hm : np_sum (shape (set_t_last_update s0 0)) (add_at zeros 9 117 (1 / / sqrt 2)) <> 0).
  { destruct Hg as (_ & _ & _ & _ & _ & _ & _ & _ & _ & Hsh). rewrite Hsh.
    rewrite np_sum_add_at by (cbn; lia). rewrite np_sum_zeros.
    pose proof inv_sqrt2_bounds as [A B].
    assert (0 < 1 / / sqrt 2) by (apply Rdiv_lt_0_compat; lra). lra. }
  destruct (processSegments_publishes separable_gaussian self _ diagonal_frame 0 0 _
              eq_refl Hstep Hl Hm) as (self' & m & H).
  destruct (belief_stays_a_distribution separable_gaussian self self' diagonal_frame 0 0
              (Some m) separable_gaussian_nonneg Hn H) as (N & S & _).
  split; [exact separable_gaussian_nonneg|]. split; [exact Hn|]. split; [reflexivity|].
  exists self', m. split; [exact H|]. split; [exact N|].
  apply S. discriminate.
Defined.

Lemma reversing_a_yellow_segment_witness :
  let s := reversed diagonal_segment in
  color s = YELLOW /\ x (fst (points s)) < x (snd (points s)) /\
  exists d_i phi_i l_i,
    generateVote (read_params no_params) s = Vote d_i phi_i l_i /\
    generateVote (read_params no_params) (reversed s)
    = Vote (d_i - linewidth_yellow (read_params no_params)) phi_i l_i.
Proof.
  intros s.
  assert (Hx : x (fst (points s)) < x (snd (points s))) by (cbn; lra).
  split; [reflexivity|]. split; [exact Hx|].
  exact (reversing_a_yellow_segment (read_params no_params) s eq_refl Hx).
Defined.

Lemma vote_angle_and_distance_witness :
  generateVote (read_params no_params) diagonal_segment
  = Vote (lanewidth (read_params no_params) / 2 - / sqrt 2) (PI / 4) (/ sqrt 2) /\
  - (PI / 2) <= PI / 4 <= PI / 2 /\ 0 < / sqrt 2.
Proof.
  pose proof (diagonal_vote (read_params no_params)) as Hv.
  destruct (vote_angle_and_distance _ _ _ _ _ Hv) as (A & B & _).
  split; [exact Hv|]. split; [exact A|exact B].
Defined.

Lemma velocity_is_ignored_without_propagation_witness :
  use_propagation (params (init no_params 0)) = false /\
  processSegments separable_gaussian (updateVelocity (init no_params 0) 1 2)
    empty_frame 0 0
  = match processSegments separable_gaussian (init no_params 0) empty_frame 0 0 with
    | Ok (self', pub) => Ok (updateVelocity self' 1 2, pub)
    | Raise e => Raise e
    end.
Proof.
  split; [reflexivity|].
  exact (velocity_is_ignored_without_propagation separable_gaussian (init no_params 0)
           empty_frame 0 0 1 2 eq_refl).
Defined.

